(** * A pointer-bumping heap allocator (pb-alloc.c), embedded in Rocq

    The development follows the C source function by function.  The target
    is the usual LP64 little-endian one: [size_t] is an unsigned 64-bit
    word, [intptr_t] a signed 64-bit word, pointers are 64-bit addresses and
    [sizeof(header_s) = 8].  Every C expression is written with its
    conversions and its wrap-around spelled out. *)

From Stdlib Require Import ZArith Lia List String Bool.
Import ListNotations.
Open Scope Z_scope.

(* ====================================================================== *)
(** ** Machine arithmetic *)

Module Machine.

(** [size_t] arithmetic is arithmetic modulo [2^64]. *)
Definition modulus : Z := 2 ^ 64.

(** [intptr_t] ranges over [-2^63 .. 2^63 - 1]. *)
Definition half_modulus : Z := 2 ^ 63.

(** Largest value of [size_t] (SIZE_MAX). *)
Definition SIZE_MAX : Z := modulus - 1.

(** Conversion of an integer value to [size_t]. *)
Definition to_size_t (z : Z) : Z := z mod modulus.

(** Conversion of an integer value to [intptr_t] (two's complement, as every
    LP64 compiler defines it). *)
Definition to_intptr_t (z : Z) : Z :=
  let u := z mod modulus in
  if u <? half_modulus then u else u - modulus.

(** Unsigned addition, subtraction and multiplication, as C performs them
    once both operands have been converted to [size_t]. *)
Definition uadd (a b : Z) : Z := to_size_t (to_size_t a + to_size_t b).
Definition usub (a b : Z) : Z := to_size_t (to_size_t a - to_size_t b).
Definition umul (a b : Z) : Z := to_size_t (to_size_t a * to_size_t b).

(** Unsigned remainder. *)
Definition umod (a b : Z) : Z := to_size_t a mod to_size_t b.

(** Values a [size_t] parameter can hold. *)
Definition is_size_t (z : Z) : Prop := 0 <= z < modulus.

End Machine.

Import Machine.

(* ====================================================================== *)
(** ** Constants of the source *)

(** [KB], [MB], [GB] and [HEAP_SIZE], lines 39-44. *)
Definition KB (size : Z) : Z := umul size 1024.
Definition MB (size : Z) : Z := umul (KB size) 1024.
Definition GB (size : Z) : Z := umul (MB size) 1024.
Definition HEAP_SIZE : Z := GB 2.

(** [sizeof(header_s)]: the header holds one [size_t]. *)
Definition sizeof_header_s : Z := 8.

(** The null pointer, and the value [mmap] returns on failure,
    [(void* )-1]. *)
Definition NULL : Z := 0.
Definition MAP_FAILED : Z := to_size_t (-1).

(* ====================================================================== *)
(** ** Byte-addressed memory *)

Module Memory.

(** Memory contents: one byte (0..255) per address. *)
Definition memory : Type := Z -> Z.

(** Little-endian encoding of an integer on [n] bytes, and its decoding. *)
Fixpoint encode_le (n : nat) (v : Z) : list Z :=
  match n with
  | O => []
  | S k => v mod 256 :: encode_le k (v / 256)
  end.

Fixpoint decode_le (l : list Z) : Z :=
  match l with
  | [] => 0
  | b :: t => b + 256 * decode_le t
  end.

(** The [n] bytes found at address [a]. *)
Definition load_bytes (m : memory) (a : Z) (n : nat) : list Z :=
  map (fun k => m (a + Z.of_nat k)) (seq 0 n).

(** Memory after the bytes [l] have been written at address [a]. *)
Definition store_bytes (m : memory) (a : Z) (l : list Z) : memory :=
  fun x =>
    if (a <=? x) && (x <? a + Z.of_nat (List.length l))
    then nth (Z.to_nat (x - a)) l 0
    else m x.

(** A [size_t] object in memory. *)
Definition load64 (m : memory) (a : Z) : Z := decode_le (load_bytes m a 8).
Definition store64 (m : memory) (a v : Z) : memory :=
  store_bytes m a (encode_le 8 v).

(** [memset(p, c, n)]: the byte [(unsigned char)c] in each of the [n] bytes
    starting at [p]. *)
Definition memset_bytes (m : memory) (p c n : Z) : memory :=
  fun x => if (p <=? x) && (x <? p + n) then c mod 256 else m x.

(** [memcpy(dst, src, n)] for ranges that do not overlap. *)
Definition memcpy_bytes (m : memory) (dst src n : Z) : memory :=
  fun x => if (dst <=? x) && (x <? dst + n) then m (src + (x - dst)) else m x.

(** The ranges [[a, a+n)] and [[b, b+k)] have no byte in common. *)
Definition disjoint_ranges (a n b k : Z) : bool :=
  (n <=? 0) || (k <=? 0) || (a + n <=? b) || (b + k <=? a).

End Memory.

Import Memory.

(* ====================================================================== *)
(** ** Program state and effects *)

(** Modelled from the spec: the [DEBUG] macro of "safeio.h", which is not
    part of the sources.  The spec calls it a diagnostic-output facility;
    a call leaves the allocator alone and emits its message, recorded here
    as an event, with the value printed after it when there is one. *)
Inductive event : Type :=
| Debug (msg : string)
| DebugVal (msg : string) (v : Z).

(** The globals [free_addr], [start_addr] and [end_addr] (three [intptr_t]),
    the memory, and the diagnostics emitted so far, newest first. *)
Record state : Type := mkState {
  free_addr : Z;
  start_addr : Z;
  end_addr : Z;
  mem : memory;
  diag : list event
}.

(** What a call can do: return a value in a new state; stop the process
    through [ERROR]; or touch memory the process does not own, which C
    leaves undefined. *)
Inductive outcome (A : Type) : Type :=
| Done (a : A) (s : state)
| Fatal (msg : string)
| Fault.

Arguments Done {A} a s.
Arguments Fatal {A} msg.
Arguments Fault {A}.

(** Computations over the program state. *)
Definition M (A : Type) : Type := state -> outcome A.

Definition ret {A : Type} (a : A) : M A := fun s => Done a s.

Definition bind {A B : Type} (c : M A) (k : A -> M B) : M B :=
  fun s =>
    match c s with
    | Done a s' => k a s'
    | Fatal msg => Fatal msg
    | Fault => Fault
    end.

Declare Scope alloc_scope.
Delimit Scope alloc_scope with alloc.
Notation "x <- c ;; k" := (bind c (fun x => k))
  (at level 61, c at next level, right associativity) : alloc_scope.
Notation "c ;; k" := (bind c (fun _ => k))
  (at level 61, right associativity) : alloc_scope.
Open Scope alloc_scope.

Definition get_free_addr : M Z := fun s => Done (free_addr s) s.
Definition get_start_addr : M Z := fun s => Done (start_addr s) s.
Definition get_end_addr : M Z := fun s => Done (end_addr s) s.

Definition set_free_addr (v : Z) : M unit :=
  fun s => Done tt (mkState v (start_addr s) (end_addr s) (mem s) (diag s)).

Definition set_mem (m : memory) : M unit :=
  fun s => Done tt (mkState (free_addr s) (start_addr s) (end_addr s) m (diag s)).

(** [DEBUG(msg)] and [DEBUG(msg, v)]. *)
Definition emit (e : event) : M unit :=
  fun s => Done tt
    (mkState (free_addr s) (start_addr s) (end_addr s) (mem s) (e :: diag s)).

(** Modelled from the spec: the [ERROR] macro of "safeio.h", which is not
    part of the sources.  Per the spec the failure it reports is fatal: the
    process terminates with the diagnostic. *)
Definition ERROR {A : Type} (msg : string) : M A := fun _ => Fatal msg.

(** The only memory the program owns is the mapping [init] records in
    [start_addr] and [end_addr]; neither is assigned again.  An access to
    [n] bytes at [a] is defined when it lies inside that mapping. *)
Definition in_heap (s : state) (a n : Z) : bool :=
  (start_addr s <=? a) && (a + n <=? end_addr s).

(** [hdr->size] read through a [header_s*]. *)
Definition load_header_size (hdr : Z) : M Z :=
  fun s =>
    if in_heap s hdr sizeof_header_s
    then Done (load64 (mem s) hdr) s
    else Fault.

(** [hdr->size = v]. *)
Definition store_header_size (hdr v : Z) : M unit :=
  fun s =>
    if in_heap s hdr sizeof_header_s
    then set_mem (store64 (mem s) hdr v) s
    else Fault.

(** [memset(p, c, n)]. *)
Definition memset (p c n : Z) : M unit :=
  fun s =>
    if in_heap s p n
    then set_mem (memset_bytes (mem s) p c n) s
    else Fault.

(** [memcpy(dst, src, n)]; overlapping ranges are undefined. *)
Definition memcpy (dst src n : Z) : M unit :=
  fun s =>
    if in_heap s dst n && in_heap s src n && disjoint_ranges dst n src n
    then set_mem (memcpy_bytes (mem s) dst src n) s
    else Fault.

(* ====================================================================== *)
(** ** The allocator *)

Section Allocator.

(** The address the anonymous [mmap] of [init] returns when it is called:
    the base of [HEAP_SIZE] fresh zero bytes, or [MAP_FAILED]. *)
Variable mmap_result : Z.

(** [init], lines 82-112. *)
Definition init : M unit :=
  start <- get_start_addr ;;
  if start =? 0 then
    emit (Debug "Trying to initialize") ;;
    let heap := mmap_result in
    (if heap =? MAP_FAILED
     then ERROR "Could not mmap() heap region"
     else ret tt) ;;
    (fun s =>
       let start' := to_intptr_t heap in
       let end' := to_intptr_t (uadd start' HEAP_SIZE) in
       Done tt (mkState start' start' end'
                  (memset_bytes (mem s) heap 0 HEAP_SIZE) (diag s))) ;;
    emit (Debug "bp-alloc initialized")
  else ret tt.

(** The padding of lines 136-137, as a function of the cursor. *)
Definition padding (cursor : Z) : Z :=
  let pad := usub 16 (umod (uadd cursor sizeof_header_s) 16) in
  umod pad 16.

(** [malloc], lines 126-149. *)
Definition malloc (size : Z) : M Z :=
  init ;;
  if size =? 0 then ret NULL
  else
    let total_size := uadd size sizeof_header_s in
    cursor <- get_free_addr ;;
    let pad := padding cursor in
    let header_ptr := uadd cursor pad in
    let block_ptr := uadd (uadd cursor pad) sizeof_header_s in
    let new_free_addr := to_intptr_t (uadd (uadd cursor pad) total_size) in
    end_ <- get_end_addr ;;
    if new_free_addr >? end_ then ret NULL
    else
      set_free_addr new_free_addr ;;
      store_header_size header_ptr size ;;
      ret block_ptr.

(** [free], lines 161-165: a diagnostic and nothing else. *)
Definition free (ptr : Z) : M unit :=
  emit (DebugVal "free(): " (to_intptr_t ptr)).

(** [calloc], lines 179-192. *)
Definition calloc (nmemb size : Z) : M Z :=
  let block_size := umul nmemb size in
  block_ptr <- malloc block_size ;;
  (if negb (block_ptr =? NULL)
   then memset block_ptr 0 block_size
   else ret tt) ;;
  ret block_ptr.

(** [realloc], lines 210-234. *)
Definition realloc (ptr size : Z) : M Z :=
  if ptr =? NULL then malloc size
  else if size =? 0 then free ptr ;; ret NULL
  else
    let old_header := usub (to_intptr_t ptr) sizeof_header_s in
    old_size <- load_header_size old_header ;;
    if size <=? old_size then ret ptr
    else
      new_ptr <- malloc size ;;
      (if negb (new_ptr =? NULL)
       then memcpy new_ptr ptr old_size ;; free ptr
       else ret tt) ;;
      ret new_ptr.

(** A caller's request, and a sequence of them run in program order; the
    results come back in the same order ([free] has none, recorded as
    [NULL]). *)
Inductive request : Type :=
| Allocate (size : Z)
| ZeroAllocate (nmemb size : Z)
| Resize (ptr size : Z)
| Deallocate (ptr : Z).

Definition serve (r : request) : M Z :=
  match r with
  | Allocate size => malloc size
  | ZeroAllocate nmemb size => calloc nmemb size
  | Resize ptr size => realloc ptr size
  | Deallocate ptr => free ptr ;; ret NULL
  end.

Fixpoint run (rs : list request) : M (list Z) :=
  match rs with
  | [] => ret []
  | r :: rest =>
      p <- serve r ;;
      ps <- run rest ;;
      ret (p :: ps)
  end.

End Allocator.

(* ====================================================================== *)
(** ** Vocabulary of the statements *)

(** The three addresses [malloc] derives from the cursor (lines 138-140). *)
Definition header_ptr_at (cursor : Z) : Z := uadd cursor (padding cursor).

Definition block_ptr_at (cursor : Z) : Z :=
  uadd (uadd cursor (padding cursor)) sizeof_header_s.

Definition new_free_addr_at (cursor size : Z) : Z :=
  to_intptr_t (uadd (uadd cursor (padding cursor)) (uadd size sizeof_header_s)).

(** The region invariant of the data model. *)
Definition region_invariant (s : state) : Prop :=
  start_addr s <= free_addr s <= end_addr s.

(** A state in which the region has been reserved: the three globals are
    addresses of a mapping that lies in the positive half of [intptr_t]. *)
Definition heap_ok (s : state) : Prop :=
  0 < start_addr s /\ region_invariant s /\ end_addr s < half_modulus.

(** The state before the first call: the globals hold their initialisers. *)
Definition pristine (s : state) : Prop :=
  start_addr s = 0 /\ free_addr s = 0 /\ end_addr s = 0.

(** User-space addresses of the target lie below [2^47]. *)
Definition user_space_limit : Z := 2 ^ 47.

(** What the operating system may answer to the [mmap] of [init]: a failure,
    or the base of a mapping in user space. *)
Definition mmap_answer (heap : Z) : Prop :=
  heap = MAP_FAILED \/ (0 < heap /\ heap + HEAP_SIZE <= user_space_limit).

(** The states a process goes through: before the first call, or with the
    region reserved in user space. *)
Definition reserved_low (s : state) : Prop :=
  heap_ok s /\ end_addr s <= user_space_limit.

Definition settled (s : state) : Prop := pristine s \/ reserved_low s.

(** The two states have the same cursor and the same region bounds. *)
Definition same_region (s s' : state) : Prop :=
  free_addr s' = free_addr s /\
  start_addr s' = start_addr s /\
  end_addr s' = end_addr s.

(** The header address [realloc] derives from a payload pointer (line 220),
    and the fact that the header found there records [n]. *)
Definition header_of (ptr : Z) : Z := usub (to_intptr_t ptr) sizeof_header_s.

Definition recorded_size (s : state) (ptr n : Z) : Prop :=
  load_header_size (header_of ptr) s = Done n s.

(** [p] is the payload of a block carved earlier for a request of [n]
    bytes: it lies below the cursor and its header records [n]. *)
Definition live_block (s : state) (p n : Z) : Prop :=
  0 < n /\
  start_addr s + sizeof_header_s <= p /\
  p + n <= free_addr s /\
  load64 (mem s) (p - sizeof_header_s) = n.

(** A request whose block, header and padding included, ends below
    [2^63]: none of the sums of [malloc] wraps. *)
Definition no_wrap (s : state) (size : Z) : Prop :=
  0 < size /\
  free_addr s + padding (free_addr s) + sizeof_header_s + size < half_modulus.

(** Sizes for which no request wraps on a region reserved in user
    space. *)
Definition modest (size : Z) : Prop := 0 <= size < 2 ^ 62.

Definition modest_request (r : request) : Prop :=
  match r with
  | Allocate size => modest size
  | ZeroAllocate nmemb size => modest (umul nmemb size)
  | Resize _ size => modest size
  | Deallocate _ => True
  end.

(** Projections of an outcome, for statements about concrete runs. *)
Definition result_of {A : Type} (o : outcome A) : option A :=
  match o with Done a _ => Some a | _ => None end.

Definition state_of {A : Type} (o : outcome A) (dflt : state) : state :=
  match o with Done _ s => s | _ => dflt end.

(** Closed forms, proved equal to the code below: the state [init] builds
    on first use, and [malloc] past its call to [init]. *)
Definition reserved (heap : Z) (s : state) : state :=
  mkState (to_intptr_t heap) (to_intptr_t heap)
    (to_intptr_t (uadd (to_intptr_t heap) HEAP_SIZE))
    (memset_bytes (mem s) heap 0 HEAP_SIZE)
    (Debug "bp-alloc initialized" :: Debug "Trying to initialize" :: diag s).

Definition carved (size : Z) (s : state) : state :=
  mkState (new_free_addr_at (free_addr s) size) (start_addr s) (end_addr s)
    (store64 (mem s) (header_ptr_at (free_addr s)) size) (diag s).

Definition carve (size : Z) (s : state) : outcome Z :=
  if size =? 0 then Done NULL s
  else if new_free_addr_at (free_addr s) size >? end_addr s then Done NULL s
  else if in_heap s (header_ptr_at (free_addr s)) sizeof_header_s
       then Done (block_ptr_at (free_addr s)) (carved size s)
       else Fault.

(* ====================================================================== *)
(** ** Concrete states *)

(** A page-aligned address such as [mmap] returns on x86-64 Linux. *)
Definition heap0 : Z := 139637976727552.

(** The process before its first call to the allocator. *)
Definition boot : state := mkState 0 0 0 (fun _ => 0) [].

(** The process once the region is reserved at [heap0]. *)
Definition fresh : state := state_of (init heap0 boot) boot.

(** The first block of the test client: [malloc(24)] right after the region
    is reserved, and the state the call leaves. *)
Definition x_block : Z := heap0 + 16.
Definition with_x : state := state_of (malloc heap0 24 fresh) fresh.

(** The same state once the client has filled the payload of [x] with the
    bytes 0, 1, ..., 23. *)
Definition with_pattern : state :=
  state_of
    (set_mem (store_bytes (mem with_x) x_block (map Z.of_nat (seq 0 24)))
       with_x)
    with_x.

(** The state after the client's [realloc(x, 100)]. *)
Definition x_grown : Z := heap0 + 48.
Definition with_x_grown : state :=
  state_of (realloc heap0 x_block 100 with_pattern) with_pattern.

(** The state after the client's [calloc(3, 8)], called once [x] exists. *)
Definition zeroed_block : Z := heap0 + 48.
Definition with_zeroed : state :=
  state_of (calloc heap0 3 8 with_pattern) with_pattern.

(* ====================================================================== *)
(** ** The rest of the sources *)

(** The number of payload bytes a request asks for, and the pointer a
    resize is given (null for the other requests). *)
Definition request_size (r : request) : Z :=
  match r with
  | Allocate size => size
  | ZeroAllocate nmemb size => umul nmemb size
  | Resize _ size => size
  | Deallocate _ => 0
  end.

Definition resized_pointer (r : request) : Z :=
  match r with
  | Resize ptr _ => ptr
  | _ => NULL
  end.


(** A state that differs from [s] in its diagnostics only. *)
Definition with_diag (d : list event) (s : state) : state :=
  mkState (free_addr s) (start_addr s) (end_addr s) (mem s) d.

(** Every byte of the region is zero. *)
Definition region_zeroed (s : state) : Prop :=
  forall a : Z, start_addr s <= a < end_addr s -> mem s a = 0.

(** [main] of pb-alloc.c, lines 245-258 (compiled under [ALLOC_MAIN]). *)
Module AllocMain.

Definition main (mmap_result : Z) : M Z :=
  x <- malloc mmap_result 16 ;;
  y <- malloc mmap_result 64 ;;
  z <- malloc mmap_result 32 ;;
  free z ;;
  free y ;;
  free x ;;
  ret 0.

End AllocMain.

(** A client session on a new process: three blocks, a zeroed block, a
    grow, a shrink and a deallocation. *)
Definition session : list request :=
  [Allocate 24; Allocate 19; ZeroAllocate 4 8;
   Resize (heap0 + 48) 23; Resize (heap0 + 16) 22; Deallocate (heap0 + 16)].

Definition session_results : list Z :=
  match run heap0 session boot with Done ps _ => ps | _ => [] end.

Definition after_session : state := state_of (run heap0 session boot) boot.

(** The test client, memtest.c.  Each block of its [main] is a definition
    taking the pointers the block uses; what [printf] writes is returned as
    a list of lines (without the final newline), a [%p] argument being kept
    as the pointer value. *)
Module Memtest.

Inductive output : Type :=
| Text (line : string)
| Pointer (label : string) (p : Z).

(** A loop over the indices [l], in order. *)
Fixpoint for_each (l : list Z) (body : Z -> M unit) : M unit :=
  match l with
  | [] => ret tt
  | i :: rest => body i ;; for_each rest body
  end.

(** The indices [0 .. n-1] of a [for (size_t i = 0; i < n; i++)]. *)
Definition upto (n : nat) : list Z := map Z.of_nat (seq 0 n).

(** [p + i] for a [size_t*]: eight bytes an element. *)
Definition index (p i : Z) : Z := uadd p (umul i 8).

(** [*p] and [*p = v] through a [size_t*]. *)
Definition read_size_t (p : Z) : M Z := load_header_size p.
Definition write_size_t (p v : Z) : M unit := store_header_size p v.

(** [(intptr_t)p % 16 == 0]; the remainder of C truncates. *)
Definition aligned16 (p : Z) : bool := Z.rem (to_intptr_t p) 16 =? 0.

Section Client.

Variable mmap_result : Z.

(** Lines 16-24. *)
Definition test_1 (x : Z) : M (Z * list output) :=
  x_new <- realloc mmap_result x 24 ;;
  ret (x_new,
       [Pointer "x_old = " x; Pointer "x_new = " x;
        Text (if x =? x_new
              then "TEST_1 (without copying when new_size == old_size) PASSES"
              else "TEST_1 (without copying when new_size == old_size) FAILS")]).

(** Lines 26-34. *)
Definition test_2 (x : Z) : M (Z * list output) :=
  x_new <- realloc mmap_result x 22 ;;
  ret (x_new,
       [Pointer "x_old = " x; Pointer "x_new = " x;
        Text (if x =? x_new
              then "TEST_2 (without copying when new_size < old_size) PASSES"
              else "TEST_2 (without copying when new_size < old_size) FAILS")]).

(** Lines 36-42. *)
Definition test_3 (y : Z) : M (Z * list output) :=
  y_new <- realloc mmap_result y 23 ;;
  ret (y_new,
       [Text (if y =? y_new
              then "TEST_3 (with copying when new_size > old_size) PASSES"
              else "TEST_3 (with copying when new_size > old_size) FAILS")]).

(** The second loop of lines 51-55: one line for each index at which the
    comparison fails. *)
Fixpoint compare_loop (arr_ arr : Z) (l : list Z) : M (list output) :=
  match l with
  | [] => ret []
  | i :: rest =>
      a <- read_size_t arr_ ;;
      b <- read_size_t arr ;;
      out <- compare_loop arr_ arr rest ;;
      ret ((if negb (uadd a i =? uadd b i)
            then [Text "TEST_4 (reallocation copies contents correctly) FAILS"]
            else []) ++ out)
  end.

(** Lines 44-57. *)
Definition test_4 : M (Z * Z * list output) :=
  arr <- malloc mmap_result 13 ;;
  for_each (upto 13) (fun ct => write_size_t (index arr ct) ct) ;;
  arr_ <- realloc mmap_result arr 17 ;;
  out <- compare_loop arr_ arr (upto 13) ;;
  ret (arr, arr_, [Text "TEST 4...."] ++ out ++ [Text "TEST 4...."]).

(** Lines 59-68. *)
Definition test_5 : M (Z * Z * Z * list output) :=
  ptr1 <- malloc mmap_result 111 ;;
  ptr2 <- malloc mmap_result 222 ;;
  ptr3 <- malloc mmap_result 12 ;;
  ret (ptr1, ptr2, ptr3,
       [Text (if aligned16 ptr1 && aligned16 ptr2 && aligned16 ptr3
              then "TEST_5 (malloc alignment) PASSES"
              else "TEST_5 (malloc alignment) FAILS")]).

(** Lines 70-79. *)
Definition test_6 (ptr1 ptr2 ptr3 : Z) : M (Z * Z * Z * list output) :=
  ptr1_ <- realloc mmap_result ptr1 92 ;;
  ptr2_ <- realloc mmap_result ptr2 141 ;;
  ptr3_ <- realloc mmap_result ptr3 1 ;;
  ret (ptr1_, ptr2_, ptr3_,
       [Text (if aligned16 ptr1_ && aligned16 ptr2_ && aligned16 ptr3_
              then "TEST_6 (realloc alignment) PASSES"
              else "TEST_6 (realloc alignment) FAILS")]).

End Client.

End Memtest.

(** The second block of the test client, [malloc(19)] after [x], and the
    state that call leaves. *)
Definition y_block : Z := heap0 + 48.
Definition with_xy : state := state_of (malloc heap0 19 with_x) with_x.

(** A client that asks for more than the address space holds: [x] is
    [malloc(64)] on the new region, filled with the bytes 1, 2, ..., 64;
    then [malloc(SIZE_MAX - 23)]; then [realloc(x, 100)]. *)
Definition x64 : Z := heap0 + 16.

Definition with_x64 : state :=
  state_of
    (bind (malloc heap0 64)
       (fun x =>
          fun s =>
            set_mem (store_bytes (mem s) x (map Z.of_nat (seq 1 64))) s)
       fresh)
    fresh.

Definition after_wrapped : state :=
  state_of (malloc heap0 (SIZE_MAX - 23) with_x64) with_x64.

Definition after_regrow : state :=
  state_of (realloc heap0 x64 100 after_wrapped) after_wrapped.

(* ====================================================================== *)
(** ** Machine arithmetic: facts *)

Lemma modulus_value : modulus = 18446744073709551616.
Proof. reflexivity. Qed.

Lemma half_modulus_value : half_modulus = 9223372036854775808.
Proof. reflexivity. Qed.

Lemma HEAP_SIZE_value : HEAP_SIZE = 2147483648.
Proof. reflexivity. Qed.

Lemma MAP_FAILED_value : MAP_FAILED = 18446744073709551615.
Proof. reflexivity. Qed.

Lemma to_size_t_range (z : Z) : 0 <= to_size_t z < modulus.
Proof. unfold to_size_t. apply Z.mod_pos_bound. reflexivity. Qed.

Lemma to_size_t_small (z : Z) : 0 <= z < modulus -> to_size_t z = z.
Proof. intros H. unfold to_size_t. now apply Z.mod_small. Qed.

Lemma to_size_t_idem (z : Z) : to_size_t (to_size_t z) = to_size_t z.
Proof. apply to_size_t_small, to_size_t_range. Qed.

Lemma mod_modulus_mod16 (z : Z) : (z mod modulus) mod 16 = z mod 16.
Proof. apply Z.mod_mod_divide. exists (2 ^ 60). reflexivity. Qed.

Lemma to_size_t_mod16 (z : Z) : to_size_t z mod 16 = z mod 16.
Proof. apply mod_modulus_mod16. Qed.

Lemma to_intptr_t_small (z : Z) : 0 <= z < half_modulus -> to_intptr_t z = z.
Proof.
  intros H. unfold to_intptr_t. rewrite half_modulus_value in *.
  rewrite Z.mod_small by (rewrite modulus_value; lia).
  destruct (Z.ltb_spec z 9223372036854775808); lia.
Qed.

Lemma to_intptr_t_high (z : Z) :
  half_modulus <= z < modulus -> to_intptr_t z = z - modulus.
Proof.
  intros H. unfold to_intptr_t. rewrite half_modulus_value in *.
  rewrite Z.mod_small by lia.
  destruct (Z.ltb_spec z 9223372036854775808); lia.
Qed.

Lemma uadd_exact (a b : Z) :
  0 <= a -> 0 <= b -> a + b < modulus -> uadd a b = a + b.
Proof.
  intros Ha Hb Hs. unfold uadd.
  rewrite (to_size_t_small a), (to_size_t_small b) by lia.
  apply to_size_t_small. lia.
Qed.

Lemma uadd_mod (a b : Z) : uadd a b = (a + b) mod modulus.
Proof. unfold uadd, to_size_t. symmetry. apply Zplus_mod. Qed.

Lemma usub_mod (a b : Z) : usub a b = (a - b) mod modulus.
Proof. unfold usub, to_size_t. symmetry. apply Zminus_mod. Qed.

Lemma umul_mod (a b : Z) : umul a b = (a * b) mod modulus.
Proof. unfold umul, to_size_t. symmetry. apply Zmult_mod. Qed.

Lemma usub_exact (a b : Z) :
  0 <= b <= a -> a < modulus -> usub a b = a - b.
Proof.
  intros Hb Ha. rewrite usub_mod. apply Z.mod_small. lia.
Qed.

(* ====================================================================== *)
(** ** The padding *)

(** The padding of the source is the one of the specification's formula. *)
Lemma padding_formula (cursor : Z) :
  padding cursor = (16 - (cursor + sizeof_header_s) mod 16) mod 16.
Proof.
  unfold padding, umod, sizeof_header_s.
  rewrite (to_size_t_small 16) by (rewrite modulus_value; lia).
  rewrite !to_size_t_mod16.
  rewrite usub_mod, uadd_mod, !mod_modulus_mod16.
  reflexivity.
Qed.

Lemma padding_range (cursor : Z) : 0 <= padding cursor < 16.
Proof. rewrite padding_formula. apply Z.mod_pos_bound. lia. Qed.

Lemma padding_aligns (cursor : Z) :
  (cursor + padding cursor + sizeof_header_s) mod 16 = 0.
Proof.
  rewrite padding_formula. unfold sizeof_header_s.
  Z.to_euclidean_division_equations. lia.
Qed.

Lemma block_ptr_at_mod (cursor : Z) :
  block_ptr_at cursor =
  (cursor + padding cursor + sizeof_header_s) mod modulus.
Proof.
  unfold block_ptr_at. rewrite !uadd_mod.
  rewrite Zplus_mod_idemp_l. reflexivity.
Qed.

Lemma block_ptr_at_aligned (cursor : Z) : block_ptr_at cursor mod 16 = 0.
Proof.
  rewrite block_ptr_at_mod, mod_modulus_mod16. apply padding_aligns.
Qed.

(* ====================================================================== *)
(** ** Memory: facts *)

Lemma decode_encode_le (n : nat) : forall v : Z,
  0 <= v < 256 ^ Z.of_nat n -> decode_le (encode_le n v) = v.
Proof.
  induction n as [|n IH]; intros v Hv.
  - simpl in *. lia.
  - cbn [encode_le decode_le].
    rewrite IH.
    + symmetry. rewrite Z.add_comm. apply Z.div_mod. lia.
    + rewrite Nat2Z.inj_succ, Z.pow_succ_r in Hv by lia.
      split.
      * apply Z.div_pos; lia.
      * apply Z.div_lt_upper_bound; lia.
Qed.

Lemma store_bytes_inside (m : memory) (a : Z) (l : list Z) (k : nat) :
  (k < List.length l)%nat ->
  store_bytes m a l (a + Z.of_nat k) = nth k l 0.
Proof.
  intros Hk. unfold store_bytes.
  replace (a + Z.of_nat k - a) with (Z.of_nat k) by lia.
  rewrite Nat2Z.id.
  destruct (Z.leb_spec a (a + Z.of_nat k)); [|lia].
  destruct (Z.ltb_spec (a + Z.of_nat k) (a + Z.of_nat (List.length l)));
    [reflexivity | lia].
Qed.

Lemma store_bytes_outside (m : memory) (a : Z) (l : list Z) (x : Z) :
  x < a \/ a + Z.of_nat (List.length l) <= x -> store_bytes m a l x = m x.
Proof.
  intros Hx. unfold store_bytes.
  destruct (Z.leb_spec a x), (Z.ltb_spec x (a + Z.of_nat (List.length l)));
    simpl; try reflexivity; lia.
Qed.

Lemma encode_le_length (n : nat) : forall v, List.length (encode_le n v) = n.
Proof. induction n as [|n IH]; intros v; simpl; [|rewrite IH]; reflexivity. Qed.

Lemma load64_store64 (m : memory) (a v : Z) :
  is_size_t v -> load64 (store64 m a v) a = v.
Proof.
  intros Hv. unfold load64, store64, load_bytes.
  cbn [map seq].
  rewrite !store_bytes_inside by (rewrite encode_le_length; lia).
  cbn [encode_le nth].
  apply (decode_encode_le 8 v). exact Hv.
Qed.

Lemma store64_outside (m : memory) (a v x : Z) :
  x < a \/ a + 8 <= x -> store64 m a v x = m x.
Proof.
  intros Hx. unfold store64. apply store_bytes_outside.
  rewrite encode_le_length. exact Hx.
Qed.

Lemma load64_agree (m1 m2 : memory) (a : Z) :
  (forall x, a <= x < a + 8 -> m1 x = m2 x) -> load64 m1 a = load64 m2 a.
Proof.
  intros H. unfold load64, load_bytes. cbn [map seq].
  rewrite !H by lia. reflexivity.
Qed.

Lemma memset_bytes_inside (m : memory) (p c n x : Z) :
  p <= x < p + n -> memset_bytes m p c n x = c mod 256.
Proof.
  intros Hx. unfold memset_bytes.
  destruct (Z.leb_spec p x), (Z.ltb_spec x (p + n)); simpl; try reflexivity; lia.
Qed.

Lemma memset_bytes_outside (m : memory) (p c n x : Z) :
  x < p \/ p + n <= x -> memset_bytes m p c n x = m x.
Proof.
  intros Hx. unfold memset_bytes.
  destruct (Z.leb_spec p x), (Z.ltb_spec x (p + n)); simpl; try reflexivity; lia.
Qed.

Lemma memcpy_bytes_inside (m : memory) (dst src n i : Z) :
  0 <= i < n -> memcpy_bytes m dst src n (dst + i) = m (src + i).
Proof.
  intros Hi. unfold memcpy_bytes.
  destruct (Z.leb_spec dst (dst + i)), (Z.ltb_spec (dst + i) (dst + n));
    simpl; try lia.
  f_equal. lia.
Qed.

Lemma memcpy_bytes_outside (m : memory) (dst src n x : Z) :
  x < dst \/ dst + n <= x -> memcpy_bytes m dst src n x = m x.
Proof.
  intros Hx. unfold memcpy_bytes.
  destruct (Z.leb_spec dst x), (Z.ltb_spec x (dst + n)); simpl; try reflexivity; lia.
Qed.

(* ====================================================================== *)
(** ** [init] and [malloc] in closed form *)

Section Steps.

Variable heap : Z.

Lemma init_initialised (s : state) :
  start_addr s <> 0 -> init heap s = Done tt s.
Proof.
  intros H. unfold init, bind, get_start_addr.
  destruct (Z.eqb_spec (start_addr s) 0); [contradiction | reflexivity].
Qed.

Lemma init_first_use (s : state) :
  start_addr s = 0 -> heap <> MAP_FAILED ->
  init heap s = Done tt (reserved heap s).
Proof.
  intros H Hm. unfold init, bind, get_start_addr.
  destruct (Z.eqb_spec (start_addr s) 0); [|contradiction].
  unfold emit. destruct (Z.eqb_spec heap MAP_FAILED); [contradiction | reflexivity].
Qed.

Lemma init_fatal (s : state) :
  start_addr s = 0 -> heap = MAP_FAILED ->
  init heap s = Fatal "Could not mmap() heap region".
Proof.
  intros H Hm. unfold init, bind, get_start_addr.
  destruct (Z.eqb_spec (start_addr s) 0); [|contradiction].
  unfold emit. destruct (Z.eqb_spec heap MAP_FAILED); [reflexivity | contradiction].
Qed.

Lemma init_done (s s1 : state) (u : unit) :
  init heap s = Done u s1 ->
  (start_addr s <> 0 /\ s1 = s) \/
  (start_addr s = 0 /\ heap <> MAP_FAILED /\ s1 = reserved heap s).
Proof.
  intros H.
  destruct (Z.eq_dec (start_addr s) 0) as [E|E].
  - destruct (Z.eq_dec heap MAP_FAILED) as [F|F].
    + rewrite init_fatal in H by assumption. discriminate.
    + rewrite init_first_use in H by assumption.
      injection H as <-. right. auto.
  - rewrite init_initialised in H by assumption.
    injection H as <-. left. auto.
Qed.

Lemma malloc_carve (size : Z) (s : state) :
  malloc heap size s = bind (init heap) (fun _ => carve size) s.
Proof.
  unfold malloc, bind. destruct (init heap s) as [u s1| |]; try reflexivity.
  unfold carve. destruct (size =? 0); [reflexivity|].
  unfold get_free_addr, get_end_addr.
  fold (new_free_addr_at (free_addr s1) size).
  destruct (new_free_addr_at (free_addr s1) size >? end_addr s1);
    [reflexivity|].
  unfold set_free_addr, store_header_size, in_heap. cbn.
  fold (header_ptr_at (free_addr s1)).
  destruct ((start_addr s1 <=? header_ptr_at (free_addr s1)) &&
            (header_ptr_at (free_addr s1) + sizeof_header_s <=? end_addr s1));
    reflexivity.
Qed.

Lemma malloc_initialised (size : Z) (s : state) :
  start_addr s <> 0 -> malloc heap size s = carve size s.
Proof.
  intros H. rewrite malloc_carve. unfold bind.
  rewrite init_initialised by assumption. reflexivity.
Qed.

End Steps.

(* ====================================================================== *)
(** ** The addresses of a carved block, when nothing wraps *)

Lemma header_ptr_at_exact (c : Z) :
  0 <= c < half_modulus -> header_ptr_at c = c + padding c.
Proof.
  intros Hc. pose proof (padding_range c) as Hp.
  rewrite half_modulus_value in Hc.
  unfold header_ptr_at. apply uadd_exact; rewrite ?modulus_value; lia.
Qed.

Lemma block_ptr_at_exact (c : Z) :
  0 <= c < half_modulus ->
  block_ptr_at c = c + padding c + sizeof_header_s.
Proof.
  intros Hc. pose proof (padding_range c) as Hp.
  rewrite half_modulus_value in Hc.
  rewrite block_ptr_at_mod. unfold sizeof_header_s.
  apply Z.mod_small. rewrite modulus_value. lia.
Qed.

Lemma new_free_addr_at_mod (c size : Z) :
  new_free_addr_at c size =
  to_intptr_t (c + padding c + sizeof_header_s + size).
Proof.
  unfold new_free_addr_at, to_intptr_t.
  rewrite !uadd_mod.
  rewrite Zplus_mod_idemp_l, Zplus_mod_idemp_r, Z.mod_mod
    by (rewrite modulus_value; lia).
  replace (c + padding c + (size + sizeof_header_s))
    with (c + padding c + sizeof_header_s + size) by lia.
  reflexivity.
Qed.

Lemma new_free_addr_at_exact (c size : Z) :
  0 <= c -> 0 <= size ->
  c + padding c + sizeof_header_s + size < half_modulus ->
  new_free_addr_at c size = c + padding c + sizeof_header_s + size.
Proof.
  intros Hc Hs Hw. pose proof (padding_range c) as Hp.
  rewrite new_free_addr_at_mod. apply to_intptr_t_small.
  unfold sizeof_header_s in *. lia.
Qed.

Lemma block_ptr_minus_header (c : Z) :
  0 <= c < half_modulus ->
  usub (to_intptr_t (block_ptr_at c)) sizeof_header_s = header_ptr_at c.
Proof.
  intros Hc. pose proof (padding_range c) as Hp.
  rewrite block_ptr_at_exact, header_ptr_at_exact by assumption.
  rewrite half_modulus_value in Hc. unfold sizeof_header_s.
  unfold to_intptr_t. rewrite Z.mod_small by (rewrite modulus_value; lia).
  rewrite half_modulus_value, modulus_value.
  destruct (Z.ltb_spec (c + padding c + 8) 9223372036854775808).
  - rewrite usub_exact; rewrite ?modulus_value; lia.
  - rewrite usub_mod, modulus_value.
    replace (c + padding c + 8 - 18446744073709551616 - 8)
      with (c + padding c + (-1) * 18446744073709551616) by lia.
    rewrite Z.mod_add by lia. apply Z.mod_small. lia.
Qed.

(* ====================================================================== *)
(** ** C1: alignment of the payload *)

Lemma carve_aligned (size : Z) (s s' : state) (p : Z) :
  carve size s = Done p s' -> p mod 16 = 0.
Proof.
  unfold carve.
  destruct (size =? 0); [intros [= <- _]; reflexivity|].
  destruct (_ >? _); [intros [= <- _]; reflexivity|].
  destruct (in_heap _ _ _); [|discriminate].
  intros [= <- _]. apply block_ptr_at_aligned.
Qed.

Lemma malloc_aligned (heap size : Z) (s s' : state) (p : Z) :
  malloc heap size s = Done p s' -> p mod 16 = 0.
Proof.
  rewrite malloc_carve. unfold bind.
  destruct (init heap s) as [u s1| |]; try discriminate.
  apply carve_aligned.
Qed.

Lemma realloc_aligned (heap ptr size : Z) (s s' : state) (q : Z) :
  ptr mod 16 = 0 -> realloc heap ptr size s = Done q s' -> q mod 16 = 0.
Proof.
  intros Hptr. unfold realloc.
  destruct (ptr =? NULL); [apply malloc_aligned|].
  destruct (size =? 0).
  { unfold bind, free, emit, ret. intros [= <- _]. reflexivity. }
  unfold bind at 1.
  destruct (load_header_size _ s) as [old s0| |]; try discriminate.
  destruct (size <=? old).
  { unfold ret. intros [= <- _]. exact Hptr. }
  unfold bind at 1.
  destruct (malloc heap size s0) as [p s1| |] eqn:Hm; try discriminate.
  unfold bind.
  destruct (negb (p =? NULL)).
  - destruct (memcpy p ptr old s1) as [u s2| |]; try discriminate.
    unfold free, emit, ret. intros [= <- _].
    eapply malloc_aligned; eassumption.
  - unfold ret. intros [= <- _].
    eapply malloc_aligned; eassumption.
Qed.

(** C1.  The padding the code computes is
    [(16 - ((cursor + header_size) mod 16)) mod 16], it makes
    [cursor + padding + header_size] a multiple of 16 for every cursor, and
    every address a successful [malloc] returns, and every address a
    successful [realloc] of a 16-byte aligned (or null) pointer returns, is
    a multiple of 16. *)
Theorem payload_alignment (heap : Z) :
  (forall cursor : Z,
      padding cursor = (16 - (cursor + sizeof_header_s) mod 16) mod 16 /\
      (cursor + padding cursor + sizeof_header_s) mod 16 = 0) /\
  (forall (size : Z) (s s' : state) (p : Z),
      malloc heap size s = Done p s' -> p <> NULL -> p mod 16 = 0) /\
  (forall (ptr size : Z) (s s' : state) (q : Z),
      ptr mod 16 = 0 ->
      realloc heap ptr size s = Done q s' -> q <> NULL -> q mod 16 = 0).
Proof.
  split; [|split].
  - intros cursor. split; [apply padding_formula | apply padding_aligns].
  - intros size s s' p H _. eapply malloc_aligned; eassumption.
  - intros ptr size s s' q Hp H _. eapply realloc_aligned; eassumption.
Qed.

Lemma payload_alignment_witness : x_grown mod 16 = 0.
Proof.
  apply (proj2 (proj2 (payload_alignment heap0))
           x_block 100 with_pattern with_x_grown x_grown).
  - reflexivity.
  - reflexivity.
  - discriminate.
Defined.

(* ====================================================================== *)
(** ** C7: requests of size zero *)

Lemma carve_zero (s : state) : carve 0 s = Done NULL s.
Proof. reflexivity. Qed.

Lemma malloc_zero_is_init (heap : Z) (s : state) :
  malloc heap 0 s = bind (init heap) (fun _ => ret NULL) s.
Proof. rewrite malloc_carve. reflexivity. Qed.

(** C7, as the code has it.  [malloc(0)] is [init] followed by the return
    of a null pointer: once the region is reserved the call changes nothing
    at all, and on first use what changes is what [init] sets up. *)
Theorem malloc_zero_size (heap : Z) (s : state) :
  malloc heap 0 s = bind (init heap) (fun _ => ret NULL) s /\
  (start_addr s <> 0 -> malloc heap 0 s = Done NULL s).
Proof.
  split.
  - apply malloc_zero_is_init.
  - intros H. rewrite malloc_initialised by assumption. reflexivity.
Qed.

Lemma malloc_zero_size_witness : malloc heap0 0 with_x = Done NULL with_x.
Proof.
  apply (proj2 (malloc_zero_size heap0 with_x)).
  vm_compute. discriminate.
Defined.

(** C7 as stated fails on the first call: [malloc(0)] returns null, yet
    the three globals have moved from 0 to the bounds of the new region. *)
Lemma malloc_zero_first_call_mutates :
  malloc heap0 0 boot = Done NULL fresh /\
  free_addr boot = 0 /\ free_addr fresh = heap0 /\
  start_addr boot = 0 /\ start_addr fresh = heap0 /\
  end_addr boot = 0 /\ end_addr fresh = heap0 + HEAP_SIZE /\
  fresh <> boot.
Proof.
  repeat split; try reflexivity.
  intros H. apply (f_equal free_addr) in H. vm_compute in H. discriminate.
Qed.

(* ====================================================================== *)
(** ** C10: zero-allocate of nothing *)

Lemma umul_zero (nmemb size : Z) :
  nmemb = 0 \/ size = 0 -> umul nmemb size = 0.
Proof.
  intros [-> | ->]; rewrite umul_mod.
  - reflexivity.
  - rewrite Z.mul_0_r. reflexivity.
Qed.

Lemma calloc_of_zero_bytes (heap nmemb size : Z) (s : state) :
  umul nmemb size = 0 ->
  calloc heap nmemb size s = bind (init heap) (fun _ => ret NULL) s.
Proof.
  intros H. unfold calloc. rewrite H.
  unfold bind at 1 2. rewrite malloc_carve. unfold bind.
  destruct (init heap s); reflexivity.
Qed.

(** C10.  When the count or the element size is 0 the total is 0 and
    [calloc] is [malloc(0)]: [init], then a null result.  So whenever the
    call returns, it returns null in the state [init] alone leaves, no block
    has been carved, and on a reserved region the state is unchanged. *)
Theorem calloc_zero_count_or_size (heap nmemb size : Z) (s : state) :
  nmemb = 0 \/ size = 0 ->
  umul nmemb size = 0 /\
  calloc heap nmemb size s = malloc heap 0 s /\
  (forall (p : Z) (s' : state),
      calloc heap nmemb size s = Done p s' ->
      p = NULL /\ init heap s = Done tt s') /\
  (start_addr s <> 0 -> calloc heap nmemb size s = Done NULL s) /\
  (start_addr s = 0 -> heap <> MAP_FAILED ->
   calloc heap nmemb size s = Done NULL (reserved heap s) /\
   free_addr (reserved heap s) = start_addr (reserved heap s)).
Proof.
  intros Hz. pose proof (umul_zero nmemb size Hz) as Hw.
  pose proof (calloc_of_zero_bytes heap nmemb size s Hw) as Hc.
  split; [exact Hw|]. split; [|split; [|split]].
  - rewrite Hc. symmetry. apply malloc_zero_is_init.
  - intros p s'. rewrite Hc. unfold bind, ret.
    destruct (init heap s) as [[] s1| |]; try discriminate.
    intros [= <- <-]. auto.
  - intros H. rewrite Hc. unfold bind.
    rewrite init_initialised by assumption. reflexivity.
  - intros H Hm. rewrite Hc. unfold bind.
    rewrite init_first_use by assumption. split; reflexivity.
Qed.

Lemma calloc_zero_count_or_size_witness :
  calloc heap0 0 8 with_x = Done NULL with_x.
Proof.
  apply (proj1 (proj2 (proj2 (proj2
           (calloc_zero_count_or_size heap0 0 8 with_x (or_introl eq_refl)))))).
  vm_compute. discriminate.
Defined.

(* ====================================================================== *)
(** ** Carving on a reserved region *)

Lemma heap_ok_cursor (s : state) :
  heap_ok s -> 0 < free_addr s < half_modulus.
Proof. unfold heap_ok, region_invariant. lia. Qed.

Lemma heap_ok_initialised (s : state) : heap_ok s -> start_addr s <> 0.
Proof. unfold heap_ok. lia. Qed.

Lemma carve_fits (size : Z) (s : state) :
  heap_ok s -> 0 < size ->
  free_addr s + padding (free_addr s) + sizeof_header_s + size <= end_addr s ->
  carve size s =
    Done (free_addr s + padding (free_addr s) + sizeof_header_s)
         (carved size s) /\
  free_addr (carved size s) =
    free_addr s + padding (free_addr s) + sizeof_header_s + size.
Proof.
  intros Hok Hs Hfit.
  pose proof (heap_ok_cursor s Hok) as Hc.
  pose proof (padding_range (free_addr s)) as Hp.
  destruct Hok as (Hst & (Hlo & Hhi) & Hend).
  assert (Hnew : new_free_addr_at (free_addr s) size =
                 free_addr s + padding (free_addr s) + sizeof_header_s + size).
  { apply new_free_addr_at_exact; lia. }
  split; [|exact Hnew].
  unfold carve. rewrite Hnew.
  destruct (Z.eqb_spec size 0); [lia|].
  destruct (Z.gtb_spec
              (free_addr s + padding (free_addr s) + sizeof_header_s + size)
              (end_addr s)); [lia|].
  unfold in_heap. rewrite header_ptr_at_exact by lia.
  rewrite block_ptr_at_exact by lia.
  unfold sizeof_header_s in *.
  destruct (Z.leb_spec (start_addr s) (free_addr s + padding (free_addr s)));
    [|lia].
  destruct (Z.leb_spec (free_addr s + padding (free_addr s) + 8) (end_addr s));
    [reflexivity | lia].
Qed.

Lemma carve_exhausted (size : Z) (s : state) :
  heap_ok s -> no_wrap s size ->
  end_addr s < free_addr s + padding (free_addr s) + sizeof_header_s + size ->
  carve size s = Done NULL s.
Proof.
  intros Hok [Hs Hw] Hover.
  pose proof (heap_ok_cursor s Hok) as Hc.
  unfold carve.
  rewrite new_free_addr_at_exact by lia.
  destruct (Z.eqb_spec size 0); [reflexivity|].
  destruct (Z.gtb_spec
              (free_addr s + padding (free_addr s) + sizeof_header_s + size)
              (end_addr s)); [reflexivity | lia].
Qed.

(** On a reserved region a null result of [carve] leaves the state as it
    was: the address of a carved block is never null there. *)
Lemma carve_null_unchanged (size : Z) (s s' : state) :
  heap_ok s -> carve size s = Done NULL s' -> s' = s.
Proof.
  intros Hok. pose proof (heap_ok_cursor s Hok) as Hc.
  pose proof (padding_range (free_addr s)) as Hp.
  unfold carve.
  destruct (size =? 0); [intros [= <-]; reflexivity|].
  destruct (_ >? _); [intros [= <-]; reflexivity|].
  destruct (in_heap _ _ _); [|discriminate].
  rewrite block_ptr_at_exact by lia. unfold NULL, sizeof_header_s.
  intros [= H _]. lia.
Qed.

(** The claim of C3 for the requests whose sums do not wrap: a request
    that does not fit is refused with the state unchanged, and a request
    that fits is then served. *)
Lemma malloc_exhaustion (heap size : Z) (s : state) :
  heap_ok s -> no_wrap s size ->
  end_addr s < free_addr s + padding (free_addr s) + sizeof_header_s + size ->
  malloc heap size s = Done NULL s /\
  (forall k : Z,
      0 < k ->
      free_addr s + padding (free_addr s) + sizeof_header_s + k <= end_addr s ->
      malloc heap k s =
        Done (free_addr s + padding (free_addr s) + sizeof_header_s)
             (carved k s) /\
      free_addr s + padding (free_addr s) + sizeof_header_s <> NULL).
Proof.
  intros Hok Hw Hover.
  pose proof (heap_ok_initialised s Hok) as Hi.
  pose proof (heap_ok_cursor s Hok) as Hc.
  pose proof (padding_range (free_addr s)) as Hp.
  split.
  - rewrite malloc_initialised by assumption.
    now apply carve_exhausted.
  - intros k Hk Hfit. split.
    + rewrite malloc_initialised by assumption.
      now apply carve_fits.
    + unfold NULL, sizeof_header_s. lia.
Qed.

(** C3, evaluated where the code departs from it.  On the freshly reserved
    region a request of [SIZE_MAX - 7] bytes is far beyond the end of the
    region, yet [size + sizeof(header_s)] wraps to 0, the test against
    [end_addr] passes, and the call returns a block and moves the cursor. *)
Theorem malloc_wrapped_request_accepted :
  is_size_t (SIZE_MAX - 7) /\ 0 < SIZE_MAX - 7 /\
  end_addr fresh <
    free_addr fresh + padding (free_addr fresh) + sizeof_header_s
    + (SIZE_MAX - 7) /\
  result_of (malloc heap0 (SIZE_MAX - 7) fresh) = Some (heap0 + 16) /\
  heap0 + 16 <> NULL /\
  free_addr fresh = heap0 /\
  free_addr (state_of (malloc heap0 (SIZE_MAX - 7) fresh) fresh) = heap0 + 8.
Proof.
  repeat split; try (vm_compute; congruence).
Qed.

(** The same defect for a whole range of sizes: on a reserved region every
    request whose block would end in the upper half of the address space is
    accepted, and leaves a negative cursor. *)
Lemma malloc_upper_half_accepted (heap size : Z) (s : state) :
  heap_ok s -> 0 < size ->
  free_addr s + padding (free_addr s) + sizeof_header_s <= end_addr s ->
  half_modulus <=
    free_addr s + padding (free_addr s) + sizeof_header_s + size < modulus ->
  malloc heap size s =
    Done (free_addr s + padding (free_addr s) + sizeof_header_s)
         (carved size s) /\
  free_addr (carved size s) < 0.
Proof.
  intros Hok Hs Hhdr Hrange.
  pose proof (heap_ok_initialised s Hok) as Hi.
  pose proof (heap_ok_cursor s Hok) as Hc.
  pose proof (padding_range (free_addr s)) as Hp.
  destruct Hok as (Hst & (Hlo & Hhi) & Hend).
  assert (Hnew : new_free_addr_at (free_addr s) size =
                 free_addr s + padding (free_addr s) + sizeof_header_s + size
                 - modulus).
  { rewrite new_free_addr_at_mod. now apply to_intptr_t_high. }
  split.
  - rewrite malloc_initialised by assumption.
    unfold carve. rewrite Hnew.
    destruct (Z.eqb_spec size 0); [lia|].
    destruct (Z.gtb_spec
                (free_addr s + padding (free_addr s) + sizeof_header_s + size
                 - modulus) (end_addr s)); [lia|].
    unfold in_heap. rewrite header_ptr_at_exact by lia.
    rewrite block_ptr_at_exact by lia.
    unfold sizeof_header_s in *.
    destruct (Z.leb_spec (start_addr s) (free_addr s + padding (free_addr s)));
      [|lia].
    destruct (Z.leb_spec (free_addr s + padding (free_addr s) + 8) (end_addr s));
      [reflexivity | lia].
  - cbn [carved free_addr]. rewrite Hnew. lia.
Qed.

(* ====================================================================== *)
(** ** Blocks and their headers *)

Lemma carve_cases (size : Z) (s s' : state) (p : Z) :
  carve size s = Done p s' ->
  (p = NULL /\ s' = s) \/
  (p = block_ptr_at (free_addr s) /\ s' = carved size s /\
   in_heap s (header_ptr_at (free_addr s)) sizeof_header_s = true).
Proof.
  unfold carve.
  destruct (size =? 0); [intros [= <- <-]; auto|].
  destruct (_ >? _); [intros [= <- <-]; auto|].
  destruct (in_heap _ _ _) eqn:Hin; [|discriminate].
  intros [= <- <-]. auto.
Qed.

Lemma header_of_exact (p : Z) :
  sizeof_header_s <= p < half_modulus -> header_of p = p - sizeof_header_s.
Proof.
  intros Hp. unfold header_of, sizeof_header_s in *.
  rewrite to_intptr_t_small by lia.
  rewrite half_modulus_value in Hp.
  apply usub_exact; rewrite ?modulus_value; lia.
Qed.

Lemma live_block_bounds (s : state) (p n : Z) :
  heap_ok s -> live_block s p n ->
  sizeof_header_s < p /\ p + n <= free_addr s /\ p < half_modulus /\ 0 < n.
Proof.
  intros (Hst & (Hlo & Hhi) & Hend) (Hn & Hp & Hq & _).
  unfold sizeof_header_s in *. lia.
Qed.

Lemma live_block_recorded (s : state) (p n : Z) :
  heap_ok s -> live_block s p n -> recorded_size s p n.
Proof.
  intros Hok Hlive.
  pose proof (live_block_bounds s p n Hok Hlive) as (Hp & Hq & Hh & Hn).
  destruct Hok as (Hst & (Hlo & Hhi) & Hend).
  destruct Hlive as (_ & Hs & _ & Hload).
  unfold recorded_size, load_header_size.
  rewrite header_of_exact by lia.
  unfold in_heap, sizeof_header_s in *.
  destruct (Z.leb_spec (start_addr s) (p - 8)); [|lia].
  destruct (Z.leb_spec (p - 8 + 8) (end_addr s)); [|lia].
  cbn [andb]. rewrite Hload. reflexivity.
Qed.

(** A block [malloc] has just carved is live, with the requested size in
    its header. *)
Lemma malloc_live_block (heap size : Z) (s s' : state) (p : Z) :
  heap_ok s -> no_wrap s size -> is_size_t size ->
  malloc heap size s = Done p s' -> p <> NULL ->
  live_block s' p size /\ heap_ok s' /\
  free_addr s + sizeof_header_s <= p /\ p + size = free_addr s'.
Proof.
  intros Hok [Hs Hw] Hsz Hm Hp.
  pose proof (heap_ok_initialised s Hok) as Hi.
  pose proof (heap_ok_cursor s Hok) as Hc.
  pose proof (padding_range (free_addr s)) as Hpad.
  rewrite malloc_initialised in Hm by assumption.
  destruct (Z_le_gt_dec
              (free_addr s + padding (free_addr s) + sizeof_header_s + size)
              (end_addr s)) as [Hfit|Hover].
  - destruct (carve_fits size s Hok Hs Hfit) as [Hcv Hnew].
    rewrite Hcv in Hm. injection Hm as <- <-.
    destruct Hok as (Hst & (Hlo & Hhi) & Hend).
    unfold live_block, heap_ok, region_invariant.
    rewrite Hnew. cbn [carved start_addr end_addr mem].
    unfold sizeof_header_s in *.
    repeat split; try lia.
    rewrite header_ptr_at_exact by lia.
    replace (free_addr s + padding (free_addr s) + 8 - 8)
      with (free_addr s + padding (free_addr s)) by lia.
    now apply load64_store64.
  - rewrite carve_exhausted in Hm; [|assumption|split; assumption|lia].
    injection Hm as <- _. contradiction.
Qed.

(* ====================================================================== *)
(** ** [realloc] *)

Lemma realloc_of_block (heap ptr size old_size : Z) (s : state) :
  ptr <> NULL -> size <> 0 -> recorded_size s ptr old_size ->
  realloc heap ptr size s =
    if size <=? old_size then Done ptr s
    else
      bind (malloc heap size)
        (fun new_ptr =>
           (if negb (new_ptr =? NULL)
            then memcpy new_ptr ptr old_size ;; free ptr
            else ret tt) ;;
           ret new_ptr) s.
Proof.
  intros Hp Hs Hrec. unfold realloc.
  destruct (Z.eqb_spec ptr NULL); [contradiction|].
  destruct (Z.eqb_spec size 0); [contradiction|].
  unfold bind at 1. fold (header_of ptr).
  unfold recorded_size in Hrec. rewrite Hrec.
  destruct (size <=? old_size); reflexivity.
Qed.

Lemma realloc_fits_in_place (heap ptr size old_size : Z) (s : state) :
  ptr <> NULL -> size <> 0 -> recorded_size s ptr old_size ->
  size <= old_size ->
  realloc heap ptr size s = Done ptr s.
Proof.
  intros Hp Hs Hrec Hle.
  rewrite (realloc_of_block heap ptr size old_size) by assumption.
  destruct (Z.leb_spec size old_size); [reflexivity | lia].
Qed.

(** C4, as the code has it.  For a live block whose header records
    [old_size], [realloc] to a size between 1 and [old_size] returns the same
    address and the very same state: no byte is copied or moved, nothing is
    logged, and the header still records [old_size]. *)
Theorem realloc_shrink_identity
  (heap ptr size old_size : Z) (s : state) :
  heap_ok s -> live_block s ptr old_size ->
  0 < size <= old_size ->
  realloc heap ptr size s = Done ptr s /\
  recorded_size s ptr old_size.
Proof.
  intros Hok Hlive [Hpos Hle].
  pose proof (live_block_recorded s ptr old_size Hok Hlive) as Hrec.
  pose proof (live_block_bounds s ptr old_size Hok Hlive) as (Hp & _).
  split; [|exact Hrec].
  apply (realloc_fits_in_place heap ptr size old_size); trivial.
  - unfold NULL, sizeof_header_s in *. lia.
  - lia.
Qed.

Lemma heap_ok_with_x : heap_ok with_x.
Proof.
  unfold heap_ok, region_invariant. vm_compute.
  repeat split; discriminate.
Qed.

Lemma live_block_with_x : live_block with_x x_block 24.
Proof.
  unfold live_block. vm_compute. repeat split; discriminate.
Qed.

Lemma heap_ok_with_pattern : heap_ok with_pattern.
Proof.
  unfold heap_ok, region_invariant. vm_compute.
  repeat split; discriminate.
Qed.

Lemma live_block_with_pattern : live_block with_pattern x_block 24.
Proof.
  unfold live_block. vm_compute. repeat split; discriminate.
Qed.

Lemma realloc_shrink_identity_witness :
  realloc heap0 x_block 22 with_x = Done x_block with_x /\
  recorded_size with_x x_block 24.
Proof.
  apply (realloc_shrink_identity heap0 x_block 22 24 with_x).
  - exact heap_ok_with_x.
  - exact live_block_with_x.
  - lia.
Defined.

(** C4 as stated fails for the new size 0, which is [<= old_size] too: the
    test [size == 0] comes first, the block is handed to [free] and the
    result is null, not the block's address. *)
Lemma realloc_to_zero_not_identity :
  heap_ok with_x /\ live_block with_x x_block 24 /\ 0 <= 24 /\
  result_of (realloc heap0 x_block 0 with_x) = Some NULL /\
  NULL <> x_block /\
  diag (state_of (realloc heap0 x_block 0 with_x) with_x) =
    DebugVal "free(): " x_block :: diag with_x.
Proof.
  split; [exact heap_ok_with_x|].
  split; [exact live_block_with_x|].
  repeat split; try (vm_compute; congruence).
Qed.

(* ====================================================================== *)
(** ** C5 and C6: growing a block *)

(** The state a successful growing [realloc] leaves, in closed form. *)
Lemma realloc_grow_outcome
  (heap ptr size old_size q : Z) (s s' : state) :
  heap_ok s -> live_block s ptr old_size -> old_size < size ->
  realloc heap ptr size s = Done q s' -> q <> NULL ->
  q = free_addr s + padding (free_addr s) + sizeof_header_s /\
  in_heap s q old_size = true /\
  s' = mkState (new_free_addr_at (free_addr s) size)
         (start_addr s) (end_addr s)
         (memcpy_bytes
            (store64 (mem s) (free_addr s + padding (free_addr s)) size)
            q ptr old_size)
         (DebugVal "free(): " (to_intptr_t ptr) :: diag s).
Proof.
  intros Hok Hlive Hlt Hr Hq.
  pose proof (live_block_recorded s ptr old_size Hok Hlive) as Hrec.
  pose proof (live_block_bounds s ptr old_size Hok Hlive) as (Hp & Hb & Hh & Hn).
  pose proof (heap_ok_initialised s Hok) as Hi.
  pose proof (heap_ok_cursor s Hok) as Hc.
  pose proof (padding_range (free_addr s)) as Hpad.
  rewrite (realloc_of_block heap ptr size old_size) in Hr;
    [| unfold NULL, sizeof_header_s in *; lia | lia | assumption].
  destruct (Z.leb_spec size old_size); [lia|].
  unfold bind at 1 in Hr.
  rewrite malloc_initialised in Hr by assumption.
  destruct (carve size s) as [p s1| |] eqn:Hcv; try discriminate.
  destruct (carve_cases size s s1 p Hcv) as [[-> ->] | (-> & -> & Hin)].
  - cbn in Hr. injection Hr as <- _. contradiction.
  - rewrite block_ptr_at_exact in * by lia.
    rewrite header_ptr_at_exact in * by lia.
    unfold bind at 1 2 in Hr.
    destruct (Z.eqb_spec
                (free_addr s + padding (free_addr s) + sizeof_header_s) NULL)
      as [E|_]; [unfold NULL, sizeof_header_s in E; lia|].
    cbn [negb] in Hr. unfold memcpy in Hr.
    change (in_heap (carved size s)) with (in_heap s) in Hr.
    destruct (in_heap s _ old_size) eqn:Hdst; [|discriminate].
    cbn [andb] in Hr.
    destruct (in_heap s ptr old_size && disjoint_ranges _ old_size ptr old_size);
      [|discriminate].
    cbn in Hr. injection Hr as <- <-.
    rewrite header_ptr_at_exact by lia.
    auto.
Qed.

(** Growing a live block.  For a live block (one that lies below the
    cursor) whose header records [old_size], a [realloc] to
    a larger size that returns a block returns the newly carved one, at an
    address other than the old one; its first [old_size] bytes are the old
    payload, byte for byte; outside the new header and those [old_size]
    bytes memory is as it was (so exactly [old_size] bytes were copied, and
    the old block keeps its contents); the new header records the new size;
    and the old address has been handed to [free]. *)
Theorem realloc_grow_copies
  (heap ptr size old_size q : Z) (s s' : state) :
  heap_ok s -> live_block s ptr old_size ->
  old_size < size -> is_size_t size ->
  realloc heap ptr size s = Done q s' -> q <> NULL ->
  q <> ptr /\
  q = free_addr s + padding (free_addr s) + sizeof_header_s /\
  (forall i : Z, 0 <= i < old_size -> mem s' (q + i) = mem s (ptr + i)) /\
  (forall a : Z,
      a < q - sizeof_header_s \/ q + old_size <= a -> mem s' a = mem s a) /\
  load64 (mem s') (q - sizeof_header_s) = size /\
  diag s' = DebugVal "free(): " (to_intptr_t ptr) :: diag s.
Proof.
  intros Hok Hlive Hlt Hsz Hr Hq.
  destruct (realloc_grow_outcome heap ptr size old_size q s s'
              Hok Hlive Hlt Hr Hq) as (Hqv & Hin & ->).
  pose proof (live_block_bounds s ptr old_size Hok Hlive) as (Hp & Hb & Hh & Hn).
  pose proof (padding_range (free_addr s)) as Hpad.
  cbn [mem diag]. unfold sizeof_header_s in *.
  split; [lia|]. split; [exact Hqv|]. split; [|split; [|split]].
  - intros i Hi. rewrite memcpy_bytes_inside by assumption.
    apply store64_outside. lia.
  - intros a Ha. rewrite memcpy_bytes_outside by lia.
    apply store64_outside. lia.
  - rewrite (load64_agree _
               (store64 (mem s) (free_addr s + padding (free_addr s)) size)).
    + replace (q - 8) with (free_addr s + padding (free_addr s)) by lia.
      now apply load64_store64.
    + intros x Hx. apply memcpy_bytes_outside. lia.
  - reflexivity.
Qed.

Lemma realloc_grow_copies_witness :
  x_grown <> x_block /\
  mem with_x_grown (x_grown + 7) = mem with_pattern (x_block + 7) /\
  mem with_pattern (x_block + 7) = 7.
Proof.
  pose proof (realloc_grow_copies heap0 x_block 100 24 x_grown
                with_pattern with_x_grown
                heap_ok_with_pattern live_block_with_pattern) as H.
  destruct H as (Hne & _ & Hcopy & _).
  - lia.
  - unfold is_size_t. rewrite modulus_value. lia.
  - reflexivity.
  - discriminate.
  - split; [assumption|]. split; [apply Hcopy; lia | reflexivity].
Defined.

(** A growing [realloc] does return a block whenever the new block fits in
    the region. *)
Lemma realloc_grow_succeeds (heap ptr size old_size : Z) (s : state) :
  heap_ok s -> live_block s ptr old_size -> old_size < size ->
  free_addr s + padding (free_addr s) + sizeof_header_s + size <= end_addr s ->
  exists s' : state,
    realloc heap ptr size s =
      Done (free_addr s + padding (free_addr s) + sizeof_header_s) s' /\
    free_addr s + padding (free_addr s) + sizeof_header_s <> NULL.
Proof.
  intros Hok Hlive Hlt Hfit.
  pose proof (live_block_recorded s ptr old_size Hok Hlive) as Hrec.
  pose proof (live_block_bounds s ptr old_size Hok Hlive) as (Hp & Hb & Hh & Hn).
  pose proof (heap_ok_initialised s Hok) as Hi.
  pose proof (heap_ok_cursor s Hok) as Hc.
  pose proof (padding_range (free_addr s)) as Hpad.
  assert (Hs : 0 < size) by lia.
  destruct (carve_fits size s Hok Hs Hfit) as [Hcv _].
  rewrite (realloc_of_block heap ptr size old_size);
    [| unfold NULL, sizeof_header_s in *; lia | lia | assumption].
  destruct (Z.leb_spec size old_size); [lia|].
  unfold bind at 1. rewrite malloc_initialised by assumption. rewrite Hcv.
  unfold bind at 1 2.
  destruct (Z.eqb_spec
              (free_addr s + padding (free_addr s) + sizeof_header_s) NULL)
    as [E|_]; [unfold NULL, sizeof_header_s in E; lia|].
  cbn [negb]. unfold memcpy.
  change (in_heap (carved size s)) with (in_heap s).
  destruct Hok as (Hst & (Hlo & Hhi) & Hend).
  destruct Hlive as (_ & Hs8 & _ & _).
  unfold in_heap, disjoint_ranges, sizeof_header_s in *.
  repeat match goal with
         | |- context [Z.leb ?a ?b] => destruct (Z.leb_spec a b); try lia
         end.
  cbn. eexists. split; [reflexivity|]. unfold NULL. lia.
Qed.

(** C6.  For a live block whose header records [old_size], when the
    [malloc] a growing [realloc] makes returns null, [realloc] returns null
    in the very state it was called in: the old payload, its header, the
    cursor and the diagnostics are untouched, and [free] has not been
    called. *)
Theorem realloc_grow_failure
  (heap ptr size old_size : Z) (s : state) :
  heap_ok s -> live_block s ptr old_size -> old_size < size ->
  (exists s1 : state, malloc heap size s = Done NULL s1) ->
  realloc heap ptr size s = Done NULL s /\
  live_block s ptr old_size.
Proof.
  intros Hok Hlive Hlt [s1 Hm].
  pose proof (live_block_recorded s ptr old_size Hok Hlive) as Hrec.
  pose proof (live_block_bounds s ptr old_size Hok Hlive) as (Hp & Hb & Hh & Hn).
  pose proof (heap_ok_initialised s Hok) as Hi.
  split; [|exact Hlive].
  rewrite (realloc_of_block heap ptr size old_size);
    [| unfold NULL, sizeof_header_s in *; lia | lia | assumption].
  destruct (Z.leb_spec size old_size); [lia|].
  unfold bind at 1. rewrite Hm.
  rewrite malloc_initialised in Hm by assumption.
  apply carve_null_unchanged in Hm; [|assumption]. subst s1.
  reflexivity.
Qed.

Lemma realloc_grow_failure_witness :
  realloc heap0 x_block HEAP_SIZE with_x = Done NULL with_x /\
  live_block with_x x_block 24.
Proof.
  apply (realloc_grow_failure heap0 x_block HEAP_SIZE 24 with_x).
  - exact heap_ok_with_x.
  - exact live_block_with_x.
  - rewrite HEAP_SIZE_value. lia.
  - exists with_x. reflexivity.
Defined.

(* ====================================================================== *)
(** ** C8 and C9: [calloc] *)

Lemma umul_range (a b : Z) : is_size_t (umul a b).
Proof. unfold umul. apply to_size_t_range. Qed.

Lemma umul_exact (a b : Z) : is_size_t (a * b) -> umul a b = a * b.
Proof. intros H. rewrite umul_mod. now apply Z.mod_small. Qed.

Lemma umul_one (w : Z) : is_size_t w -> umul 1 w = w.
Proof. intros H. rewrite umul_exact; rewrite Z.mul_1_l; trivial. Qed.

(** [calloc] asks [malloc] for the wrapped product and clears that many
    bytes. *)
Lemma calloc_request (heap nmemb size : Z) (s : state) :
  calloc heap nmemb size s =
    bind (malloc heap (umul nmemb size))
      (fun block_ptr =>
         (if negb (block_ptr =? NULL)
          then memset block_ptr 0 (umul nmemb size)
          else ret tt) ;;
         ret block_ptr) s.
Proof. reflexivity. Qed.

Lemma calloc_cleared (heap nmemb size : Z) (s s' : state) (p : Z) :
  calloc heap nmemb size s = Done p s' -> p <> NULL ->
  forall i : Z, 0 <= i < umul nmemb size -> mem s' (p + i) = 0.
Proof.
  rewrite calloc_request. unfold bind at 1.
  destruct (malloc heap (umul nmemb size) s) as [p0 s1| |]; try discriminate.
  unfold bind. destruct (Z.eqb_spec p0 NULL) as [->|Hp0]; cbn [negb].
  - unfold ret. intros [= <- _] Hp. contradiction.
  - unfold memset. destruct (in_heap s1 p0 (umul nmemb size)); [|discriminate].
    unfold set_mem, ret. intros [= <- <-] _ i Hi. cbn [mem].
    rewrite memset_bytes_inside by lia. reflexivity.
Qed.

(** On a reserved region [calloc] returns a block whenever the wrapped
    product is not 0 and the block fits; the closed form of its state. *)
Lemma calloc_fits (heap nmemb size : Z) (s : state) :
  heap_ok s -> 0 < umul nmemb size ->
  free_addr s + padding (free_addr s) + sizeof_header_s + umul nmemb size
    <= end_addr s ->
  calloc heap nmemb size s =
    Done (free_addr s + padding (free_addr s) + sizeof_header_s)
      (mkState
         (free_addr s + padding (free_addr s) + sizeof_header_s
          + umul nmemb size)
         (start_addr s) (end_addr s)
         (memset_bytes
            (store64 (mem s) (free_addr s + padding (free_addr s))
               (umul nmemb size))
            (free_addr s + padding (free_addr s) + sizeof_header_s) 0
            (umul nmemb size))
         (diag s)).
Proof.
  intros Hok Hw Hfit.
  pose proof (heap_ok_initialised s Hok) as Hi.
  pose proof (heap_ok_cursor s Hok) as Hc.
  pose proof (padding_range (free_addr s)) as Hpad.
  destruct (carve_fits (umul nmemb size) s Hok Hw Hfit) as [Hcv Hnew].
  rewrite calloc_request. unfold bind at 1.
  rewrite malloc_initialised by assumption. rewrite Hcv.
  unfold bind.
  destruct (Z.eqb_spec
              (free_addr s + padding (free_addr s) + sizeof_header_s) NULL)
    as [E|_]; [unfold NULL, sizeof_header_s in E; lia|].
  cbn [negb]. unfold memset.
  change (in_heap (carved (umul nmemb size) s)) with (in_heap s).
  destruct Hok as (Hst & (Hlo & Hhi) & Hend).
  unfold in_heap.
  destruct (Z.leb_spec (start_addr s)
              (free_addr s + padding (free_addr s) + sizeof_header_s));
    [|unfold sizeof_header_s in *; lia].
  destruct (Z.leb_spec
              (free_addr s + padding (free_addr s) + sizeof_header_s
               + umul nmemb size) (end_addr s)); [|lia].
  cbn [andb]. unfold carved in Hnew. cbn [free_addr] in Hnew.
  unfold set_mem, ret, carved. cbn [free_addr start_addr end_addr mem diag].
  rewrite Hnew. rewrite header_ptr_at_exact by lia. reflexivity.
Qed.

(** C8.  Whenever [calloc] returns a block, every byte of its payload, the
    [nmemb * size] bytes asked of [malloc], is 0 in the state the call
    leaves; and on a reserved region the call does return a block whenever
    that payload is not empty and fits. *)
Theorem calloc_zero_fill (heap nmemb size : Z) (s : state) :
  (forall (p : Z) (s' : state),
      calloc heap nmemb size s = Done p s' -> p <> NULL ->
      forall i : Z, 0 <= i < umul nmemb size -> mem s' (p + i) = 0) /\
  (is_size_t (nmemb * size) -> umul nmemb size = nmemb * size) /\
  (heap_ok s -> 0 < umul nmemb size ->
   free_addr s + padding (free_addr s) + sizeof_header_s + umul nmemb size
     <= end_addr s ->
   exists s' : state,
     calloc heap nmemb size s =
       Done (free_addr s + padding (free_addr s) + sizeof_header_s) s' /\
     free_addr s + padding (free_addr s) + sizeof_header_s <> NULL).
Proof.
  split; [|split].
  - intros p s'. apply calloc_cleared.
  - apply umul_exact.
  - intros Hok Hw Hfit. eexists. split.
    + now apply calloc_fits.
    + pose proof (heap_ok_cursor s Hok) as Hc.
      pose proof (padding_range (free_addr s)) as Hpad.
      unfold NULL, sizeof_header_s. lia.
Qed.

Lemma calloc_zero_fill_witness : mem with_zeroed (zeroed_block + 23) = 0.
Proof.
  apply (proj1 (calloc_zero_fill heap0 3 8 with_pattern)
           zeroed_block with_zeroed).
  - reflexivity.
  - discriminate.
  - unfold umul, to_size_t. rewrite modulus_value. cbn. lia.
Defined.

(** C9, as the code has it.  The product is computed modulo [2^64] and
    unchecked, and [malloc] is asked for the wrapped value, so [calloc]
    behaves as it would for one element of that many bytes.  When the true
    product exceeds [SIZE_MAX] the wrapped value is smaller; if it is 0 the
    call returns null, and if it is not 0 and its block fits the region the
    caller gets a block of just the wrapped number of bytes: the cursor
    ends right after them and the header records them. *)
Theorem calloc_product_wraps (heap nmemb size : Z) (s : state) :
  umul nmemb size = (nmemb * size) mod modulus /\
  calloc heap nmemb size s = calloc heap 1 (umul nmemb size) s /\
  (is_size_t nmemb -> is_size_t size -> SIZE_MAX < nmemb * size ->
   umul nmemb size < nmemb * size /\
   (umul nmemb size = 0 -> start_addr s <> 0 ->
    calloc heap nmemb size s = Done NULL s) /\
   (heap_ok s -> 0 < umul nmemb size ->
    free_addr s + padding (free_addr s) + sizeof_header_s + umul nmemb size
      <= end_addr s ->
    exists s' : state,
      calloc heap nmemb size s =
        Done (free_addr s + padding (free_addr s) + sizeof_header_s) s' /\
      free_addr s + padding (free_addr s) + sizeof_header_s <> NULL /\
      free_addr s' =
        free_addr s + padding (free_addr s) + sizeof_header_s
        + umul nmemb size /\
      load64 (mem s') (free_addr s + padding (free_addr s)) =
        umul nmemb size)).
Proof.
  split; [apply umul_mod|]. split.
  - rewrite !calloc_request. rewrite umul_one by apply umul_range.
    reflexivity.
  - intros Hn Hs Hover. split; [|split].
    + pose proof (umul_range nmemb size) as Hr.
      unfold is_size_t, SIZE_MAX in *. lia.
    + intros Hz Hi. rewrite calloc_of_zero_bytes by assumption.
      unfold bind. rewrite init_initialised by assumption. reflexivity.
    + intros Hok Hw Hfit. eexists. split; [now apply calloc_fits|].
      pose proof (heap_ok_cursor s Hok) as Hc.
      pose proof (padding_range (free_addr s)) as Hpad.
      cbn [free_addr mem]. split; [|split].
      * unfold NULL, sizeof_header_s. lia.
      * reflexivity.
      * rewrite (load64_agree _
                   (store64 (mem s) (free_addr s + padding (free_addr s))
                      (umul nmemb size))).
        -- apply load64_store64, umul_range.
        -- intros x Hx. apply memset_bytes_outside.
           unfold sizeof_header_s. lia.
Qed.

Lemma calloc_product_wraps_witness :
  umul (2 ^ 61 + 1) 8 < (2 ^ 61 + 1) * 8 /\
  exists s' : state,
    calloc heap0 (2 ^ 61 + 1) 8 with_pattern = Done (heap0 + 48) s' /\
    free_addr s' = heap0 + 48 + 8.
Proof.
  destruct (calloc_product_wraps heap0 (2 ^ 61 + 1) 8 with_pattern)
    as (_ & _ & H).
  destruct H as (Hlt & _ & Hfit).
  - unfold is_size_t. rewrite modulus_value. lia.
  - unfold is_size_t. rewrite modulus_value. lia.
  - unfold SIZE_MAX. rewrite modulus_value. lia.
  - split; [exact Hlt|].
    destruct Hfit as (s' & Hc & _ & Hcur & _).
    + exact heap_ok_with_pattern.
    + vm_compute. reflexivity.
    + vm_compute. discriminate.
    + exists s'. split; [exact Hc | exact Hcur].
Defined.

(** C9 as stated fails where the wrapped product is 0, or is too large for
    what is left of the region: the caller then gets null, a failure, and no
    undersized block. *)
Lemma calloc_overflow_can_fail :
  is_size_t (2 ^ 32) /\ is_size_t (2 ^ 32 + 1) /\
  SIZE_MAX < 2 ^ 32 * 2 ^ 32 /\
  calloc heap0 (2 ^ 32) (2 ^ 32) with_x = Done NULL with_x /\
  SIZE_MAX < (2 ^ 32 + 1) * 2 ^ 32 /\
  calloc heap0 (2 ^ 32 + 1) (2 ^ 32) with_x = Done NULL with_x.
Proof.
  repeat split; try (vm_compute; congruence).
Qed.

(* ====================================================================== *)
(** ** C2: the region over a sequence of requests *)

Lemma user_space_limit_value : user_space_limit = 140737488355328.
Proof. reflexivity. Qed.

Lemma settled_region_invariant (s : state) :
  settled s -> region_invariant s.
Proof.
  intros [(H1 & H2 & H3) | [(_ & H & _) _]]; [|exact H].
  unfold region_invariant. lia.
Qed.

Lemma same_region_refl (s : state) : same_region s s.
Proof. unfold same_region. auto. Qed.

Lemma settled_same_region (s s' : state) :
  settled s -> same_region s s' -> settled s'.
Proof.
  unfold settled, pristine, reserved_low, heap_ok, region_invariant, same_region.
  intros H (-> & -> & ->). exact H.
Qed.

Lemma free_same_region (ptr : Z) (s s' : state) (u : unit) :
  free ptr s = Done u s' -> same_region s s'.
Proof. unfold free, emit. intros [= _ <-]. repeat split. Qed.

Lemma memset_same_region (p c n : Z) (s s' : state) (u : unit) :
  memset p c n s = Done u s' -> same_region s s'.
Proof.
  unfold memset. destruct (in_heap s p n); [|discriminate].
  unfold set_mem. intros [= _ <-]. repeat split.
Qed.

Lemma memcpy_same_region (dst src n : Z) (s s' : state) (u : unit) :
  memcpy dst src n s = Done u s' -> same_region s s'.
Proof.
  unfold memcpy. destruct (_ && _); [|discriminate].
  unfold set_mem. intros [= _ <-]. repeat split.
Qed.

Lemma load_header_size_state (hdr n : Z) (s s' : state) :
  load_header_size hdr s = Done n s' ->
  s' = s /\ in_heap s hdr sizeof_header_s = true.
Proof.
  unfold load_header_size.
  destruct (in_heap s hdr sizeof_header_s); [|discriminate].
  intros [= _ <-]. auto.
Qed.

Lemma init_settled (heap : Z) (s s1 : state) (u : unit) :
  settled s -> mmap_answer heap -> init heap s = Done u s1 ->
  reserved_low s1 /\ free_addr s <= free_addr s1 /\
  (start_addr s <> 0 -> s1 = s).
Proof.
  intros Hs Hm Hi.
  destruct (init_done heap s s1 u Hi) as [[Hne ->] | (Hz & Hf & ->)].
  - destruct Hs as [(H0 & _) | Hlow]; [contradiction|].
    split; [exact Hlow|]. split; [lia | reflexivity].
  - destruct Hm as [Hm | [Hpos Htop]]; [contradiction|].
    destruct Hs as [(_ & Hfree & _) | [(Hst & _) _]]; [|lia].
    rewrite HEAP_SIZE_value, user_space_limit_value in Htop.
    assert (Hstart : to_intptr_t heap = heap).
    { apply to_intptr_t_small. rewrite half_modulus_value. lia. }
    assert (Hend : to_intptr_t (uadd (to_intptr_t heap) HEAP_SIZE)
                   = heap + HEAP_SIZE).
    { rewrite Hstart, HEAP_SIZE_value.
      rewrite uadd_exact by (rewrite ?modulus_value; lia).
      apply to_intptr_t_small. rewrite half_modulus_value. lia. }
    unfold reserved_low, heap_ok, region_invariant, reserved.
    cbn [free_addr start_addr end_addr].
    rewrite Hend, Hstart, Hfree, HEAP_SIZE_value, user_space_limit_value,
      half_modulus_value.
    repeat split; lia.
Qed.

Lemma modest_no_wrap (size : Z) (s : state) :
  reserved_low s -> modest size -> size <> 0 -> no_wrap s size.
Proof.
  intros [Hok Hlow] [H0 Hm] Hne.
  pose proof (padding_range (free_addr s)) as Hpad.
  destruct Hok as (Hst & (Hlo & Hhi) & Hend).
  rewrite user_space_limit_value in Hlow.
  change (2 ^ 62) with 4611686018427387904 in Hm.
  unfold no_wrap, sizeof_header_s. rewrite half_modulus_value. lia.
Qed.

(** One [carve] on a reserved region, for a modest size: the state stays
    reserved, the cursor does not go back, and a block that is returned lies
    between the old cursor and the new one. *)
Lemma carve_step (size : Z) (s s' : state) (p : Z) :
  reserved_low s -> modest size -> carve size s = Done p s' ->
  reserved_low s' /\ free_addr s <= free_addr s' /\
  start_addr s' = start_addr s /\ end_addr s' = end_addr s /\
  ((p = NULL /\ s' = s) \/
   (p <> NULL /\ free_addr s + sizeof_header_s <= p /\
    p + size = free_addr s')).
Proof.
  intros Hlow Hm Hcv.
  destruct (Z.eq_dec size 0) as [->|Hne].
  { rewrite carve_zero in Hcv. injection Hcv as <- <-.
    split; [exact Hlow|]. split; [lia|]. auto. }
  pose proof (modest_no_wrap size s Hlow Hm Hne) as Hnw.
  pose proof Hlow as [Hok Hlim].
  pose proof (padding_range (free_addr s)) as Hpad.
  pose proof (heap_ok_cursor s Hok) as Hc.
  destruct (Z_le_gt_dec
              (free_addr s + padding (free_addr s) + sizeof_header_s + size)
              (end_addr s)) as [Hfit|Hover].
  - destruct (carve_fits size s Hok (proj1 Hnw) Hfit) as [Hcv' Hnew].
    rewrite Hcv' in Hcv. injection Hcv as <- <-.
    destruct Hok as (Hst & (Hlo & Hhi) & Hend).
    unfold reserved_low, heap_ok, region_invariant.
    rewrite Hnew. cbn [carved start_addr end_addr].
    unfold NULL, sizeof_header_s in *.
    pose proof (proj1 Hnw) as Hpos.
    split; [repeat split; lia|]. split; [lia|].
    split; [reflexivity|]. split; [reflexivity|].
    right. repeat split; lia.
  - rewrite carve_exhausted in Hcv by (trivial; lia).
    injection Hcv as <- <-.
    split; [exact Hlow|]. split; [lia|]. auto.
Qed.

Lemma malloc_step (heap size : Z) (s s' : state) (p : Z) :
  settled s -> mmap_answer heap -> modest size ->
  malloc heap size s = Done p s' ->
  reserved_low s' /\ free_addr s <= free_addr s' /\
  (start_addr s <> 0 ->
   start_addr s' = start_addr s /\ end_addr s' = end_addr s) /\
  (p = NULL \/
   (free_addr s + sizeof_header_s <= p /\ p + size = free_addr s')).
Proof.
  intros Hs Hmm Hm. rewrite malloc_carve. unfold bind.
  destruct (init heap s) as [u s1| |] eqn:Hi; try discriminate.
  intros Hcv.
  destruct (init_settled heap s s1 u Hs Hmm Hi) as (Hlow1 & Hmono1 & Hsame).
  destruct (carve_step size s1 s' p Hlow1 Hm Hcv)
    as (Hlow & Hmono & Hst & Hen & Hblock).
  split; [exact Hlow|]. split; [lia|]. split.
  - intros Hne. rewrite <- (Hsame Hne). auto.
  - destruct Hblock as [[-> _] | (_ & Hlo & Hhi)]; [left; reflexivity|].
    right. lia.
Qed.

Lemma calloc_step (heap nmemb size : Z) (s s' : state) (p : Z) :
  settled s -> mmap_answer heap -> modest (umul nmemb size) ->
  calloc heap nmemb size s = Done p s' ->
  settled s' /\ free_addr s <= free_addr s'.
Proof.
  intros Hs Hmm Hm. rewrite calloc_request. unfold bind at 1.
  destruct (malloc heap (umul nmemb size) s) as [p0 s1| |] eqn:Hmal;
    try discriminate.
  destruct (malloc_step heap _ s s1 p0 Hs Hmm Hm Hmal) as (Hlow & Hmono & _).
  unfold bind. destruct (negb (p0 =? NULL)).
  - destruct (memset p0 0 (umul nmemb size) s1) as [u s2| |] eqn:Hset;
      try discriminate.
    unfold ret. intros [= _ <-].
    pose proof (memset_same_region _ _ _ _ _ _ Hset) as Hsame.
    split.
    + eapply settled_same_region; [right; exact Hlow | exact Hsame].
    + destruct Hsame as (-> & _). exact Hmono.
  - unfold ret. intros [= _ <-]. split; [right; exact Hlow | exact Hmono].
Qed.

Lemma realloc_step (heap ptr size : Z) (s s' : state) (q : Z) :
  settled s -> mmap_answer heap -> modest size ->
  realloc heap ptr size s = Done q s' ->
  settled s' /\ free_addr s <= free_addr s'.
Proof.
  intros Hs Hmm Hm. unfold realloc.
  destruct (ptr =? NULL).
  { intros Hmal.
    destruct (malloc_step heap size s s' q Hs Hmm Hm Hmal) as (Hlow & Hmono & _).
    split; [right; exact Hlow | exact Hmono]. }
  destruct (size =? 0).
  { unfold bind. destruct (free ptr s) as [u s1| |] eqn:Hf; try discriminate.
    unfold ret. intros [= _ <-].
    pose proof (free_same_region _ _ _ _ Hf) as Hsame. split.
    - eapply settled_same_region; eassumption.
    - destruct Hsame as (-> & _). lia. }
  unfold bind at 1.
  destruct (load_header_size _ s) as [old s0| |] eqn:Hld; try discriminate.
  apply load_header_size_state in Hld. destruct Hld as [-> _].
  destruct (size <=? old).
  { unfold ret. intros [= _ <-]. split; [exact Hs | lia]. }
  unfold bind at 1.
  destruct (malloc heap size s) as [p s1| |] eqn:Hmal; try discriminate.
  destruct (malloc_step heap size s s1 p Hs Hmm Hm Hmal) as (Hlow & Hmono & _).
  unfold bind at 1. destruct (negb (p =? NULL)).
  - unfold bind at 1.
    destruct (memcpy p ptr old s1) as [u s2| |] eqn:Hcp; try discriminate.
    destruct (free ptr s2) as [u' s3| |] eqn:Hf; try discriminate.
    unfold ret. intros [= _ <-].
    pose proof (memcpy_same_region _ _ _ _ _ _ Hcp) as Hsame1.
    pose proof (free_same_region _ _ _ _ Hf) as Hsame2.
    split.
    + eapply settled_same_region; [|exact Hsame2].
      eapply settled_same_region; [right; exact Hlow | exact Hsame1].
    + destruct Hsame1 as (E1 & _), Hsame2 as (E2 & _). lia.
  - unfold ret. intros [= _ <-]. split; [right; exact Hlow | exact Hmono].
Qed.

Lemma serve_step (heap : Z) (r : request) (s s' : state) (p : Z) :
  settled s -> mmap_answer heap -> modest_request r ->
  serve heap r s = Done p s' ->
  settled s' /\ free_addr s <= free_addr s'.
Proof.
  intros Hs Hmm Hr. destruct r as [size | nmemb size | ptr size | ptr];
    cbn [serve modest_request] in *.
  - intros Hmal.
    destruct (malloc_step heap size s s' p Hs Hmm Hr Hmal) as (Hlow & Hmono & _).
    split; [right; exact Hlow | exact Hmono].
  - now apply calloc_step.
  - now apply realloc_step.
  - unfold bind. destruct (free ptr s) as [u s1| |] eqn:Hf; try discriminate.
    unfold ret. intros [= _ <-].
    pose proof (free_same_region _ _ _ _ Hf) as Hsame. split.
    + eapply settled_same_region; eassumption.
    + destruct Hsame as (-> & _). lia.
Qed.

(** The claim of C2 for modest requests: over any sequence of them the
    region invariant holds in the state reached, and the cursor has not gone
    back.  (Every prefix of a sequence is a sequence, so this holds after
    each request.) *)
Lemma run_keeps_region (heap : Z) (rs : list request) :
  forall (s s' : state) (ps : list Z),
    settled s -> mmap_answer heap -> Forall modest_request rs ->
    run heap rs s = Done ps s' ->
    settled s' /\ region_invariant s' /\ free_addr s <= free_addr s'.
Proof.
  induction rs as [|r rest IH]; intros s s' ps Hs Hmm Hall.
  - cbn. unfold ret. intros [= _ <-].
    split; [exact Hs|]. split; [now apply settled_region_invariant | lia].
  - inversion Hall as [|? ? Hr Hrest]; subst.
    cbn [run]. unfold bind at 1.
    destruct (serve heap r s) as [p s1| |] eqn:Hsv; try discriminate.
    destruct (serve_step heap r s s1 p Hs Hmm Hr Hsv) as [Hs1 Hmono1].
    unfold bind at 1.
    destruct (run heap rest s1) as [ps1 s2| |] eqn:Hrun; try discriminate.
    unfold ret. intros [= _ <-].
    destruct (IH s1 s2 ps1 Hs1 Hmm Hrest Hrun) as (Hs2 & Hinv & Hmono2).
    split; [exact Hs2|]. split; [exact Hinv | lia].
Qed.

(** Two blocks carved by [malloc], with any sequence of modest requests
    between the two calls, have disjoint payloads: the second block's header
    starts at or after the end of the first payload. *)
Lemma carved_blocks_disjoint
  (heap a b p q : Z) (rs : list request) (ps : list Z)
  (s0 s1 s2 s3 : state) :
  settled s0 -> mmap_answer heap ->
  modest a -> modest b -> Forall modest_request rs ->
  malloc heap a s0 = Done p s1 -> p <> NULL ->
  run heap rs s1 = Done ps s2 ->
  malloc heap b s2 = Done q s3 -> q <> NULL ->
  p + a <= q - sizeof_header_s /\ disjoint_ranges p a q b = true.
Proof.
  intros Hs Hmm Ha Hb Hall Hm1 Hp Hrun Hm2 Hq.
  destruct (malloc_step heap a s0 s1 p Hs Hmm Ha Hm1)
    as (Hlow1 & _ & _ & [Hnull | [_ Hend1]]); [contradiction|].
  destruct (run_keeps_region heap rs s1 s2 ps (or_intror Hlow1) Hmm Hall Hrun)
    as (Hs2 & _ & Hmono).
  destruct (malloc_step heap b s2 s3 q Hs2 Hmm Hb Hm2)
    as (_ & _ & _ & [Hnull | [Hlo2 _]]); [contradiction|].
  assert (Hgap : p + a <= q - sizeof_header_s) by lia.
  split; [exact Hgap|].
  unfold disjoint_ranges, sizeof_header_s in *.
  destruct (Z.leb_spec (p + a) q); [|lia].
  rewrite !orb_true_r. reflexivity.
Qed.

(** C2, evaluated where the code departs from it.  From the first call of
    a process: a request of [SIZE_MAX - 7] bytes followed by one of 16 bytes
    are both served, at the same address, so the two payloads overlap; and
    a request of [2^63] bytes is served and leaves the cursor negative,
    below [start_addr] and below the cursor before the call. *)
Theorem wrapped_requests_break_region :
  is_size_t (SIZE_MAX - 7) /\ is_size_t (2 ^ 63) /\
  result_of (run heap0 [Allocate (SIZE_MAX - 7); Allocate 16] boot)
    = Some [heap0 + 16; heap0 + 16] /\
  heap0 + 16 <> NULL /\
  disjoint_ranges (heap0 + 16) (SIZE_MAX - 7) (heap0 + 16) 16 = false /\
  result_of (run heap0 [Allocate (2 ^ 63)] fresh) = Some [heap0 + 16] /\
  free_addr (state_of (run heap0 [Allocate (2 ^ 63)] fresh) fresh)
    < start_addr (state_of (run heap0 [Allocate (2 ^ 63)] fresh) fresh) /\
  free_addr (state_of (run heap0 [Allocate (2 ^ 63)] fresh) fresh)
    < free_addr fresh /\
  ~ region_invariant (state_of (run heap0 [Allocate (2 ^ 63)] fresh) fresh).
Proof.
  repeat split; try (vm_compute; congruence).
  unfold region_invariant. vm_compute. intros [H _]. apply H. reflexivity.
Qed.

(* ====================================================================== *)
(** ** Further properties: [init] *)

(** X1.  First use: from a state whose [start_addr] is still 0, when
    [mmap] answers with the base [heap] of a mapping that lies in the
    positive half of [intptr_t], [init] returns with the cursor and the
    start of the region at [heap] and the end exactly [HEAP_SIZE = 2^31]
    bytes further; every byte of the region reads 0, memory outside the
    region is as it was, and the two diagnostics have been emitted. *)
Theorem init_reserves_region (heap : Z) (s : state) :
  start_addr s = 0 -> 0 < heap -> heap + HEAP_SIZE < half_modulus ->
  exists s1 : state,
    init heap s = Done tt s1 /\
    start_addr s1 = heap /\ free_addr s1 = heap /\
    end_addr s1 = heap + 2 ^ 31 /\
    heap_ok s1 /\ region_zeroed s1 /\
    (forall a : Z, a < heap \/ heap + 2 ^ 31 <= a -> mem s1 a = mem s a) /\
    diag s1 =
      Debug "bp-alloc initialized" :: Debug "Trying to initialize" :: diag s.
Proof.
  intros Hz Hpos Htop.
  rewrite HEAP_SIZE_value, half_modulus_value in Htop.
  change (2 ^ 31) with 2147483648.
  assert (Hne : heap <> MAP_FAILED) by (rewrite MAP_FAILED_value; lia).
  assert (Hstart : to_intptr_t heap = heap).
  { apply to_intptr_t_small. rewrite half_modulus_value. lia. }
  assert (Hend : to_intptr_t (uadd (to_intptr_t heap) HEAP_SIZE)
                 = heap + 2147483648).
  { rewrite Hstart, HEAP_SIZE_value.
    rewrite uadd_exact by (rewrite ?modulus_value; lia).
    apply to_intptr_t_small. rewrite half_modulus_value. lia. }
  exists (reserved heap s).
  split; [now apply init_first_use|].
  unfold heap_ok, region_invariant, region_zeroed, reserved.
  cbn [free_addr start_addr end_addr mem diag].
  rewrite Hend, Hstart, HEAP_SIZE_value, half_modulus_value.
  repeat split; try lia.
  - intros a Ha. rewrite memset_bytes_inside by lia. reflexivity.
  - intros a Ha. apply memset_bytes_outside. lia.
Qed.

Lemma init_reserves_region_witness :
  exists s1 : state,
    init heap0 boot = Done tt s1 /\ start_addr s1 = heap0 /\
    end_addr s1 = heap0 + 2 ^ 31.
Proof.
  destruct (init_reserves_region heap0 boot) as (s1 & Hi & Hs & _ & He & _).
  - reflexivity.
  - reflexivity.
  - reflexivity.
  - exists s1. auto.
Defined.

(** X2.  [init] is idempotent: once a call has returned with a region
    whose base is not the null address, every later call returns the state
    it was given, whatever [mmap] would answer then. *)
Theorem init_idempotent (heap heap' : Z) (s s1 : state) (u : unit) :
  to_intptr_t heap <> 0 ->
  init heap s = Done u s1 ->
  init heap' s1 = Done tt s1.
Proof.
  intros Hnz Hi. apply init_initialised.
  destruct (init_done heap s s1 u Hi) as [[Hne ->] | (_ & _ & ->)].
  - exact Hne.
  - exact Hnz.
Qed.

Lemma init_idempotent_witness : init MAP_FAILED fresh = Done tt fresh.
Proof.
  apply (init_idempotent heap0 MAP_FAILED boot fresh tt).
  - vm_compute. discriminate.
  - reflexivity.
Defined.

(** X3.  Failure to reserve the region is fatal for every entry point that
    reaches [init]: while [start_addr] is 0 and [mmap] fails, [malloc],
    [calloc] and [realloc] of a null pointer stop the process, for every
    size, 0 included; none of them returns null.  [free] and [realloc] to
    size 0 of a non-null pointer do not reach [init] and return. *)
Theorem reservation_failure_is_fatal (s : state) (size nmemb ptr : Z) :
  start_addr s = 0 ->
  malloc MAP_FAILED size s = Fatal "Could not mmap() heap region" /\
  calloc MAP_FAILED nmemb size s = Fatal "Could not mmap() heap region" /\
  realloc MAP_FAILED NULL size s = Fatal "Could not mmap() heap region" /\
  (ptr <> NULL ->
   realloc MAP_FAILED ptr 0 s =
     Done NULL (with_diag (DebugVal "free(): " (to_intptr_t ptr) :: diag s) s)).
Proof.
  intros Hz.
  assert (Hm : forall n, malloc MAP_FAILED n s
                         = Fatal "Could not mmap() heap region").
  { intros n. rewrite malloc_carve. unfold bind.
    rewrite init_fatal by trivial. reflexivity. }
  split; [apply Hm|]. split; [|split].
  - rewrite calloc_request. unfold bind. rewrite Hm. reflexivity.
  - unfold realloc. cbn [Z.eqb NULL]. apply Hm.
  - intros Hp. unfold realloc.
    destruct (Z.eqb_spec ptr NULL); [contradiction|]. reflexivity.
Qed.

Lemma reservation_failure_is_fatal_witness :
  malloc MAP_FAILED 0 boot = Fatal "Could not mmap() heap region".
Proof.
  apply (proj1 (reservation_failure_is_fatal boot 0 0 0 eq_refl)).
Defined.

(* ====================================================================== *)
(** ** Further properties: the region bounds *)

Lemma carve_bounds (size : Z) (s s' : state) (p : Z) :
  carve size s = Done p s' ->
  start_addr s' = start_addr s /\ end_addr s' = end_addr s.
Proof.
  intros H. destruct (carve_cases size s s' p H) as [[_ ->] | (_ & -> & _)];
    auto.
Qed.

Lemma malloc_bounds (heap size : Z) (s s' : state) (p : Z) :
  start_addr s <> 0 -> malloc heap size s = Done p s' ->
  start_addr s' = start_addr s /\ end_addr s' = end_addr s.
Proof.
  intros Hi. rewrite malloc_initialised by assumption. apply carve_bounds.
Qed.

Lemma serve_bounds (heap : Z) (r : request) (s s' : state) (p : Z) :
  start_addr s <> 0 -> serve heap r s = Done p s' ->
  start_addr s' = start_addr s /\ end_addr s' = end_addr s.
Proof.
  intros Hi. destruct r as [size | nmemb size | ptr size | ptr]; cbn [serve].
  - now apply malloc_bounds.
  - rewrite calloc_request. unfold bind at 1.
    destruct (malloc heap _ s) as [p0 s1| |] eqn:Hm; try discriminate.
    destruct (malloc_bounds heap _ s s1 p0 Hi Hm) as [Hs He].
    unfold bind. destruct (negb (p0 =? NULL)).
    + destruct (memset p0 0 _ s1) as [u s2| |] eqn:Hset; try discriminate.
      unfold ret. intros [= _ <-].
      destruct (memset_same_region _ _ _ _ _ _ Hset) as (_ & -> & ->). auto.
    + unfold ret. intros [= _ <-]. auto.
  - unfold realloc. destruct (ptr =? NULL); [now apply malloc_bounds|].
    destruct (size =? 0).
    { unfold bind, free, emit, ret. intros [= _ <-]. auto. }
    unfold bind at 1.
    destruct (load_header_size _ s) as [old s0| |] eqn:Hld; try discriminate.
    apply load_header_size_state in Hld. destruct Hld as [-> _].
    destruct (size <=? old); [unfold ret; intros [= _ <-]; auto|].
    unfold bind at 1.
    destruct (malloc heap size s) as [p0 s1| |] eqn:Hm; try discriminate.
    destruct (malloc_bounds heap _ s s1 p0 Hi Hm) as [Hs He].
    unfold bind at 1. destruct (negb (p0 =? NULL)).
    + unfold bind at 1.
      destruct (memcpy p0 ptr old s1) as [u s2| |] eqn:Hcp; try discriminate.
      destruct (free ptr s2) as [u' s3| |] eqn:Hf; try discriminate.
      unfold ret. intros [= _ <-].
      destruct (memcpy_same_region _ _ _ _ _ _ Hcp) as (_ & E1 & E2).
      destruct (free_same_region _ _ _ _ Hf) as (_ & E3 & E4).
      split; congruence.
    + unfold ret. intros [= _ <-]. auto.
  - unfold bind, free, emit, ret. intros [= _ <-]. auto.
Qed.

Lemma run_bounds (heap : Z) (rs : list request) :
  forall (s s' : state) (ps : list Z),
    start_addr s <> 0 ->
    run heap rs s = Done ps s' ->
    start_addr s' = start_addr s /\ end_addr s' = end_addr s.
Proof.
  induction rs as [|r rest IH]; intros s s' ps Hi.
  - cbn. unfold ret. intros [= _ <-]. auto.
  - cbn [run]. unfold bind at 1.
    destruct (serve heap r s) as [p s1| |] eqn:Hsv; try discriminate.
    destruct (serve_bounds heap r s s1 p Hi Hsv) as [Hs He].
    unfold bind at 1.
    destruct (run heap rest s1) as [ps1 s2| |] eqn:Hrun; try discriminate.
    unfold ret. intros [= _ <-].
    assert (Hi1 : start_addr s1 <> 0) by congruence.
    destruct (IH s1 s2 ps1 Hi1 Hrun) as [Hs2 He2].
    split; congruence.
Qed.

(** X4.  Once reserved, the region is never grown, shrunk, moved or
    released: over any sequence of requests that returns, whatever their
    sizes and pointers, [start_addr] and [end_addr] keep their values. *)
Theorem run_keeps_bounds
  (heap : Z) (rs : list request) (s s' : state) (ps : list Z) :
  start_addr s <> 0 ->
  run heap rs s = Done ps s' ->
  start_addr s' = start_addr s /\ end_addr s' = end_addr s.
Proof.
  revert s s' ps. induction rs as [|r rest IH]; intros s s' ps Hi.
  - cbn. unfold ret. intros [= _ <-]. auto.
  - cbn [run]. unfold bind at 1.
    destruct (serve heap r s) as [p s1| |] eqn:Hsv; try discriminate.
    destruct (serve_bounds heap r s s1 p Hi Hsv) as [Hs He].
    unfold bind at 1.
    destruct (run heap rest s1) as [ps1 s2| |] eqn:Hrun; try discriminate.
    unfold ret. intros [= _ <-].
    assert (Hi1 : start_addr s1 <> 0) by congruence.
    destruct (IH s1 s2 ps1 Hi1 Hrun) as [Hs2 He2].
    split; congruence.
Qed.

Lemma run_keeps_bounds_witness :
  start_addr
    (state_of
       (run heap0 [Allocate 24; Resize x_block (2 ^ 63); Deallocate x_block]
          fresh) fresh) = start_addr fresh /\
  end_addr
    (state_of
       (run heap0 [Allocate 24; Resize x_block (2 ^ 63); Deallocate x_block]
          fresh) fresh) = end_addr fresh.
Proof.
  apply (run_keeps_bounds heap0
           [Allocate 24; Resize x_block (2 ^ 63); Deallocate x_block]
           fresh _
           (match run heap0
                    [Allocate 24; Resize x_block (2 ^ 63); Deallocate x_block]
                    fresh
            with Done ps _ => ps | _ => [] end)).
  - vm_compute. discriminate.
  - reflexivity.
Defined.

(* ====================================================================== *)
(** ** Further properties: [malloc] *)

Lemma no_wrap_is_size_t (s : state) (size : Z) :
  heap_ok s -> no_wrap s size -> is_size_t size.
Proof.
  intros Hok [Hs Hw]. pose proof (heap_ok_cursor s Hok) as Hc.
  pose proof (padding_range (free_addr s)) as Hp.
  unfold is_size_t, sizeof_header_s in *.
  rewrite half_modulus_value in *. rewrite modulus_value. lia.
Qed.

(** X5.  The padding is the only amount below 16 that aligns the payload:
    any [k] in [0 .. 15] with [cursor + k + 8] a multiple of 16 is the
    padding the code computes, so no block wastes more than 15 bytes before
    its header. *)
Theorem padding_unique (cursor k : Z) :
  0 <= k < 16 ->
  (cursor + k + sizeof_header_s) mod 16 = 0 ->
  k = padding cursor.
Proof.
  intros Hk Hal.
  pose proof (padding_range cursor) as Hp.
  pose proof (padding_aligns cursor) as Hpa.
  unfold sizeof_header_s in *.
  Z.to_euclidean_division_equations. lia.
Qed.

Lemma padding_unique_witness : 8 = padding heap0.
Proof.
  apply (padding_unique heap0 8).
  - lia.
  - reflexivity.
Defined.

(** X6.  Layout of a served request.  On a reserved region, when a
    request whose sums do not wrap returns a block, the payload starts right
    after the padding and the 8-byte header, the cursor ends exactly at the
    end of the payload, the header read back through the address [realloc]
    uses holds the requested size, the only bytes written are the 8 bytes of
    the header, nothing is logged, and the block is live. *)
Theorem malloc_block_layout (heap size p : Z) (s s' : state) :
  heap_ok s -> no_wrap s size ->
  malloc heap size s = Done p s' -> p <> NULL ->
  p = free_addr s + padding (free_addr s) + sizeof_header_s /\
  free_addr s' = p + size /\
  recorded_size s' p size /\
  (forall a : Z, a < p - sizeof_header_s \/ p <= a -> mem s' a = mem s a) /\
  diag s' = diag s /\
  live_block s' p size /\ heap_ok s'.
Proof.
  intros Hok Hnw Hm Hp.
  pose proof (no_wrap_is_size_t s size Hok Hnw) as Hsz.
  destruct (malloc_live_block heap size s s' p Hok Hnw Hsz Hm Hp)
    as (Hlive & Hok' & Hlo & Hhi).
  pose proof (heap_ok_initialised s Hok) as Hi.
  pose proof (heap_ok_cursor s Hok) as Hc.
  pose proof (padding_range (free_addr s)) as Hpad.
  rewrite malloc_initialised in Hm by assumption.
  destruct (carve_cases size s s' p Hm) as [[-> _] | (-> & -> & _)];
    [contradiction|].
  rewrite block_ptr_at_exact by lia.
  split; [reflexivity|].
  rewrite block_ptr_at_exact in Hhi, Hlive by lia.
  split; [lia|]. split; [now apply live_block_recorded|].
  split; [|auto].
  intros a Ha. cbn [carved mem].
  rewrite header_ptr_at_exact by lia.
  apply store64_outside. unfold sizeof_header_s in *. lia.
Qed.

Lemma malloc_block_layout_witness :
  x_block = free_addr fresh + padding (free_addr fresh) + sizeof_header_s /\
  free_addr with_x = x_block + 24 /\
  recorded_size with_x x_block 24.
Proof.
  destruct (malloc_block_layout heap0 24 x_block fresh with_x)
    as (H1 & H2 & H3 & _).
  - unfold heap_ok, region_invariant. vm_compute. repeat split; discriminate.
  - unfold no_wrap. vm_compute. repeat split.
  - reflexivity.
  - discriminate.
  - auto.
Defined.

(** X7.  For a request whose sums do not wrap, [malloc] on a reserved
    region is refused exactly when the block would end beyond [end_addr],
    and then the state is untouched; a block that ends exactly at
    [end_addr] is served.  The call never faults. *)
Theorem malloc_served_iff_fits (heap size : Z) (s : state) :
  heap_ok s -> no_wrap s size ->
  (malloc heap size s = Done NULL s <->
   end_addr s <
     free_addr s + padding (free_addr s) + sizeof_header_s + size) /\
  (malloc heap size s =
     Done (free_addr s + padding (free_addr s) + sizeof_header_s)
          (carved size s) <->
   free_addr s + padding (free_addr s) + sizeof_header_s + size
     <= end_addr s).
Proof.
  intros Hok Hnw.
  pose proof (heap_ok_initialised s Hok) as Hi.
  pose proof (heap_ok_cursor s Hok) as Hc.
  pose proof (padding_range (free_addr s)) as Hpad.
  rewrite malloc_initialised by assumption.
  destruct (Z_le_gt_dec
              (free_addr s + padding (free_addr s) + sizeof_header_s + size)
              (end_addr s)) as [Hfit|Hover].
  - destruct (carve_fits size s Hok (proj1 Hnw) Hfit) as [Hcv _].
    rewrite Hcv. split; split; intros H; try lia; try reflexivity.
    injection H as H _. unfold NULL, sizeof_header_s in H. lia.
  - rewrite carve_exhausted by (trivial; lia).
    split; split; intros H; try lia; try reflexivity.
    injection H as H _. unfold NULL, sizeof_header_s in H. lia.
Qed.

Lemma malloc_served_iff_fits_witness :
  malloc heap0 (HEAP_SIZE - 16) fresh =
    Done (heap0 + 16) (carved (HEAP_SIZE - 16) fresh) /\
  malloc heap0 (HEAP_SIZE - 15) fresh = Done NULL fresh.
Proof.
  assert (Hok : heap_ok fresh).
  { unfold heap_ok, region_invariant. vm_compute. repeat split; discriminate. }
  split.
  - destruct (malloc_served_iff_fits heap0 (HEAP_SIZE - 16) fresh Hok)
      as [_ [_ H]].
    + unfold no_wrap. vm_compute. repeat split.
    + apply H. vm_compute. discriminate.
  - destruct (malloc_served_iff_fits heap0 (HEAP_SIZE - 15) fresh Hok)
      as [[_ H] _].
    + unfold no_wrap. vm_compute. repeat split.
    + apply H. vm_compute. reflexivity.
Defined.

(** X8.  The sums of [malloc] are unchecked.  On a reserved region with
    room left for one header, every request whose block would end at or
    beyond [2^63] is served although it cannot fit: the call returns the
    block at [cursor + padding + 8] and sets the cursor to the wrapped sum,
    which lies below the block it has just returned. *)
Theorem malloc_serves_wrapping_requests (heap size : Z) (s : state) :
  heap_ok s -> is_size_t size ->
  free_addr s + padding (free_addr s) + sizeof_header_s <= end_addr s ->
  half_modulus <=
    free_addr s + padding (free_addr s) + sizeof_header_s + size ->
  malloc heap size s =
    Done (free_addr s + padding (free_addr s) + sizeof_header_s)
         (carved size s) /\
  free_addr s + padding (free_addr s) + sizeof_header_s <> NULL /\
  free_addr (carved size s) =
    free_addr s + padding (free_addr s) + sizeof_header_s + size - modulus /\
  free_addr (carved size s)
    < free_addr s + padding (free_addr s) + sizeof_header_s /\
  end_addr s
    < free_addr s + padding (free_addr s) + sizeof_header_s + size.
Proof.
  intros Hok Hsz Hhdr Hwrap.
  pose proof (heap_ok_initialised s Hok) as Hi.
  pose proof (heap_ok_cursor s Hok) as Hc.
  pose proof (padding_range (free_addr s)) as Hp.
  destruct Hok as (Hst & (Hlo & Hhi) & Hend).
  unfold is_size_t in Hsz.
  rewrite half_modulus_value in *. rewrite modulus_value in *.
  unfold sizeof_header_s in *.
  assert (Hnew : new_free_addr_at (free_addr s) size =
                 free_addr s + padding (free_addr s) + 8 + size
                 - 18446744073709551616).
  { rewrite new_free_addr_at_mod. unfold sizeof_header_s.
    destruct (Z_lt_ge_dec
                (free_addr s + padding (free_addr s) + 8 + size)
                18446744073709551616) as [Hlt|Hge].
    - rewrite to_intptr_t_high
        by (rewrite half_modulus_value, modulus_value; lia).
      rewrite modulus_value. reflexivity.
    - unfold to_intptr_t. rewrite modulus_value, half_modulus_value.
      replace (free_addr s + padding (free_addr s) + 8 + size)
        with (free_addr s + padding (free_addr s) + 8 + size
              - 18446744073709551616 + 1 * 18446744073709551616) by lia.
      rewrite Z.mod_add by lia.
      rewrite Z.mod_small by lia.
      destruct (Z.ltb_spec
                  (free_addr s + padding (free_addr s) + 8 + size
                   - 18446744073709551616) 9223372036854775808); lia. }
  split; [|split; [|split; [|split]]].
  - rewrite malloc_initialised by assumption.
    unfold carve. rewrite Hnew.
    destruct (Z.eqb_spec size 0); [lia|].
    destruct (Z.gtb_spec
                (free_addr s + padding (free_addr s) + 8 + size
                 - 18446744073709551616) (end_addr s)); [lia|].
    unfold in_heap.
    rewrite header_ptr_at_exact by (rewrite half_modulus_value; lia).
    rewrite block_ptr_at_exact by (rewrite half_modulus_value; lia).
    unfold sizeof_header_s.
    destruct (Z.leb_spec (start_addr s) (free_addr s + padding (free_addr s)));
      [|lia].
    destruct (Z.leb_spec (free_addr s + padding (free_addr s) + 8) (end_addr s));
      [reflexivity | lia].
  - unfold NULL. lia.
  - cbn [carved free_addr]. exact Hnew.
  - cbn [carved free_addr]. rewrite Hnew. lia.
  - lia.
Qed.

Lemma malloc_serves_wrapping_requests_witness :
  malloc heap0 (2 ^ 64 - 1) fresh =
    Done (heap0 + 16) (carved (2 ^ 64 - 1) fresh) /\
  free_addr (carved (2 ^ 64 - 1) fresh) = heap0 + 15.
Proof.
  destruct (malloc_serves_wrapping_requests heap0 (2 ^ 64 - 1) fresh)
    as (H1 & _ & H2 & _).
  - unfold heap_ok, region_invariant. vm_compute. repeat split; discriminate.
  - unfold is_size_t. vm_compute. split; [discriminate | reflexivity].
  - vm_compute. discriminate.
  - vm_compute. discriminate.
  - split; [exact H1 | reflexivity].
Defined.

(* ====================================================================== *)
(** ** Further properties: sequences of requests *)

Lemma run_app (heap : Z) (rs1 rs2 : list request) :
  forall (s s' : state) (ps : list Z),
    run heap (rs1 ++ rs2) s = Done ps s' ->
    exists (ps1 ps2 : list Z) (s1 : state),
      run heap rs1 s = Done ps1 s1 /\
      run heap rs2 s1 = Done ps2 s' /\
      ps = ps1 ++ ps2.
Proof.
  induction rs1 as [|r rest IH]; intros s s' ps.
  - cbn [app]. intros H. exists [], ps, s. auto.
  - cbn [app run]. intros H. unfold bind at 1 in H.
    destruct (serve heap r s) as [p s0| |] eqn:Hsv; try discriminate.
    unfold bind at 1 in H.
    destruct (run heap (rest ++ rs2) s0) as [ps0 s2| |] eqn:Hrun;
      try discriminate.
    unfold ret in H. injection H as <- <-.
    destruct (IH s0 s2 ps0 Hrun) as (ps1 & ps2 & s1 & H1 & H2 & ->).
    exists (p :: ps1), ps2, s1. split; [|auto].
    unfold bind. rewrite Hsv, H1. reflexivity.
Qed.

(** X9.  Over any sequence of modest requests (allocate, zero-allocate,
    resize, deallocate, each below [2^62] bytes) started before or after the
    region is reserved by a well-formed [mmap] answer, the region invariant
    [start <= cursor <= end] holds after every request and the cursor never
    moves back: this holds at every point at which the sequence is cut. *)
Theorem modest_run_keeps_invariant
  (heap : Z) (rs1 rs2 : list request) (s s' : state) (ps : list Z) :
  settled s -> mmap_answer heap -> Forall modest_request (rs1 ++ rs2) ->
  run heap (rs1 ++ rs2) s = Done ps s' ->
  exists (ps1 : list Z) (s1 : state),
    run heap rs1 s = Done ps1 s1 /\
    region_invariant s1 /\ region_invariant s' /\
    free_addr s <= free_addr s1 <= free_addr s'.
Proof.
  intros Hs Hmm Hall Hrun.
  apply Forall_app in Hall. destruct Hall as [Hall1 Hall2].
  destruct (run_app heap rs1 rs2 s s' ps Hrun)
    as (ps1 & ps2 & s1 & H1 & H2 & _).
  destruct (run_keeps_region heap rs1 s s1 ps1 Hs Hmm Hall1 H1)
    as (Hs1 & Hinv1 & Hmono1).
  destruct (run_keeps_region heap rs2 s1 s' ps2 Hs1 Hmm Hall2 H2)
    as (_ & Hinv2 & Hmono2).
  exists ps1, s1. auto.
Qed.

Lemma mmap_answer_heap0 : mmap_answer heap0.
Proof. right. vm_compute. split; [reflexivity | discriminate]. Qed.

Lemma settled_boot : settled boot.
Proof. left. repeat split. Qed.

Lemma modest_session : Forall modest_request session.
Proof.
  unfold session. repeat constructor; vm_compute; try discriminate; reflexivity.
Qed.

Lemma modest_run_keeps_invariant_witness :
  exists (ps1 : list Z) (s1 : state),
    run heap0 (firstn 3 session) boot = Done ps1 s1 /\
    region_invariant s1 /\ region_invariant after_session /\
    free_addr boot <= free_addr s1 <= free_addr after_session.
Proof.
  apply (modest_run_keeps_invariant heap0 (firstn 3 session) (skipn 3 session)
           boot after_session session_results).
  - exact settled_boot.
  - exact mmap_answer_heap0.
  - exact modest_session.
  - reflexivity.
Defined.

(** A block a request returns is either the pointer a resize was given, or
    a block carved above the cursor the request found. *)
Lemma serve_fresh (heap : Z) (r : request) (s s' : state) (p : Z) :
  settled s -> mmap_answer heap -> modest_request r ->
  serve heap r s = Done p s' -> p <> NULL ->
  p = resized_pointer r \/
  (free_addr s + sizeof_header_s <= p /\ p + request_size r = free_addr s').
Proof.
  intros Hs Hmm Hr. destruct r as [size | nmemb size | ptr size | ptr];
    cbn [serve modest_request resized_pointer request_size] in *.
  - intros Hmal Hp.
    destruct (malloc_step heap size s s' p Hs Hmm Hr Hmal)
      as (_ & _ & _ & [Hn | Hb]); [contradiction | auto].
  - rewrite calloc_request. unfold bind at 1.
    destruct (malloc heap (umul nmemb size) s) as [p0 s1| |] eqn:Hmal;
      try discriminate.
    destruct (malloc_step heap _ s s1 p0 Hs Hmm Hr Hmal)
      as (_ & _ & _ & Hblock).
    unfold bind. destruct (negb (p0 =? NULL)).
    + destruct (memset p0 0 (umul nmemb size) s1) as [u s2| |] eqn:Hset;
        try discriminate.
      unfold ret. intros [= <- <-] Hp.
      destruct (memset_same_region _ _ _ _ _ _ Hset) as (-> & _).
      destruct Hblock as [Hn | Hb]; [contradiction | auto].
    + unfold ret. intros [= <- <-] Hp.
      destruct Hblock as [Hn | Hb]; [contradiction | auto].
  - unfold realloc. destruct (ptr =? NULL).
    { intros Hmal Hp.
      destruct (malloc_step heap size s s' p Hs Hmm Hr Hmal)
        as (_ & _ & _ & [Hn | Hb]); [contradiction | auto]. }
    destruct (size =? 0).
    { unfold bind, free, emit, ret. intros [= <- _] Hp. contradiction. }
    unfold bind at 1.
    destruct (load_header_size _ s) as [old s0| |] eqn:Hld; try discriminate.
    apply load_header_size_state in Hld. destruct Hld as [-> _].
    destruct (size <=? old); [unfold ret; intros [= <- _] _; auto|].
    unfold bind at 1.
    destruct (malloc heap size s) as [p0 s1| |] eqn:Hmal; try discriminate.
    destruct (malloc_step heap size s s1 p0 Hs Hmm Hr Hmal)
      as (_ & _ & _ & Hblock).
    unfold bind at 1. destruct (negb (p0 =? NULL)).
    + unfold bind at 1.
      destruct (memcpy p0 ptr old s1) as [u s2| |] eqn:Hcp; try discriminate.
      destruct (free ptr s2) as [u' s3| |] eqn:Hf; try discriminate.
      unfold ret. intros [= <- <-] Hp.
      destruct (memcpy_same_region _ _ _ _ _ _ Hcp) as (E1 & _).
      destruct (free_same_region _ _ _ _ Hf) as (E2 & _).
      destruct Hblock as [Hn | [Hlo Hhi]]; [contradiction|].
      right. split; [exact Hlo | congruence].
    + unfold ret. intros [= <- <-] Hp.
      destruct Hblock as [Hn | Hb]; [contradiction | auto].
  - unfold bind, free, emit, ret. intros [= <- _] Hp. contradiction.
Qed.

(** X10.  Blocks never overlap.  Take two requests of one sequence of
    modest requests, with any requests between them.  If each returns a
    block that is not the pointer it was given to resize, then the second
    block's header starts at or after the end of the first block's payload.
    This covers allocate, zero-allocate and the relocating resize, and the
    case where the first block has been passed to deallocate in between:
    its bytes are not handed out again. *)
Theorem returned_blocks_disjoint
  (heap p q : Z) (r1 r2 : request) (rs : list request) (ps : list Z)
  (s0 s1 s2 s3 : state) :
  settled s0 -> mmap_answer heap ->
  modest_request r1 -> Forall modest_request rs -> modest_request r2 ->
  serve heap r1 s0 = Done p s1 ->
  run heap rs s1 = Done ps s2 ->
  serve heap r2 s2 = Done q s3 ->
  p <> NULL -> p <> resized_pointer r1 ->
  q <> NULL -> q <> resized_pointer r2 ->
  p + request_size r1 <= q - sizeof_header_s /\
  disjoint_ranges p (request_size r1) q (request_size r2) = true.
Proof.
  intros Hs Hmm Hr1 Hall Hr2 H1 Hrun H2 Hp Hp' Hq Hq'.
  destruct (serve_fresh heap r1 s0 s1 p Hs Hmm Hr1 H1 Hp)
    as [E | [_ Hend1]]; [contradiction|].
  destruct (serve_step heap r1 s0 s1 p Hs Hmm Hr1 H1) as [Hs1 _].
  destruct (run_keeps_region heap rs s1 s2 ps Hs1 Hmm Hall Hrun)
    as (Hs2 & _ & Hmono).
  destruct (serve_fresh heap r2 s2 s3 q Hs2 Hmm Hr2 H2 Hq)
    as [E | [Hlo2 _]]; [contradiction|].
  assert (Hgap : p + request_size r1 <= q - sizeof_header_s) by lia.
  split; [exact Hgap|].
  unfold disjoint_ranges, sizeof_header_s in *.
  destruct (Z.leb_spec (p + request_size r1) q); [|lia].
  rewrite !orb_true_r. reflexivity.
Qed.

Lemma returned_blocks_disjoint_witness :
  x_block + 24 <= heap0 + 128 - sizeof_header_s /\
  disjoint_ranges x_block 24 (heap0 + 128) 23 = true.
Proof.
  apply (returned_blocks_disjoint heap0 x_block (heap0 + 128)
           (Allocate 24) (Resize (heap0 + 48) 23)
           [Deallocate x_block; Allocate 19; ZeroAllocate 4 8]
           (match run heap0 [Deallocate x_block; Allocate 19; ZeroAllocate 4 8]
                    with_x
            with Done ps _ => ps | _ => [] end)
           boot with_x
           (state_of
              (run heap0 [Deallocate x_block; Allocate 19; ZeroAllocate 4 8]
                 with_x) with_x)
           (state_of
              (serve heap0 (Resize (heap0 + 48) 23)
                 (state_of
                    (run heap0
                       [Deallocate x_block; Allocate 19; ZeroAllocate 4 8]
                       with_x) with_x)) with_x)).
  - exact settled_boot.
  - exact mmap_answer_heap0.
  - vm_compute. split; [discriminate | reflexivity].
  - repeat constructor; vm_compute; try discriminate; reflexivity.
  - vm_compute. split; [discriminate | reflexivity].
  - reflexivity.
  - reflexivity.
  - reflexivity.
  - discriminate.
  - discriminate.
  - discriminate.
  - discriminate.
Defined.

(* ====================================================================== *)
(** ** Further properties: what the allocator never writes *)

Lemma settled_reserved (s : state) :
  settled s -> start_addr s <> 0 -> reserved_low s.
Proof. intros [(H & _) | H] Hne; [contradiction | exact H]. Qed.

Lemma carve_frame (size : Z) (s s' : state) (p : Z) :
  heap_ok s -> carve size s = Done p s' ->
  (forall a : Z, a < free_addr s -> mem s' a = mem s a) /\
  (p = NULL \/ free_addr s + sizeof_header_s <= p).
Proof.
  intros Hok Hcv.
  pose proof (heap_ok_cursor s Hok) as Hc.
  pose proof (padding_range (free_addr s)) as Hpad.
  destruct (carve_cases size s s' p Hcv) as [[-> ->] | (-> & -> & _)].
  - auto.
  - split.
    + intros a Ha. cbn [carved mem].
      rewrite header_ptr_at_exact by lia.
      apply store64_outside. lia.
    + right. rewrite block_ptr_at_exact by lia. lia.
Qed.

Lemma malloc_frame (heap size : Z) (s s' : state) (p : Z) :
  heap_ok s -> malloc heap size s = Done p s' ->
  (forall a : Z, a < free_addr s -> mem s' a = mem s a) /\
  (p = NULL \/ free_addr s + sizeof_header_s <= p).
Proof.
  intros Hok. rewrite malloc_initialised by now apply heap_ok_initialised.
  now apply carve_frame.
Qed.

Lemma serve_frame (heap : Z) (r : request) (s s' : state) (p : Z) :
  heap_ok s -> serve heap r s = Done p s' ->
  forall a : Z, a < free_addr s -> mem s' a = mem s a.
Proof.
  intros Hok. destruct r as [size | nmemb size | ptr size | ptr]; cbn [serve].
  - intros Hm. now destruct (malloc_frame heap size s s' p Hok Hm).
  - rewrite calloc_request. unfold bind at 1.
    destruct (malloc heap _ s) as [p0 s1| |] eqn:Hm; try discriminate.
    destruct (malloc_frame heap _ s s1 p0 Hok Hm) as [Hfr Hblock].
    unfold bind. destruct (Z.eqb_spec p0 NULL) as [E|E]; cbn [negb].
    + unfold ret. intros [= _ <-]. exact Hfr.
    + unfold memset. destruct (in_heap s1 p0 _); [|discriminate].
      unfold set_mem, ret. intros [= _ <-] a Ha. cbn [mem].
      destruct Hblock as [Hn | Hlo]; [contradiction|].
      rewrite memset_bytes_outside by (unfold sizeof_header_s in *; lia).
      now apply Hfr.
  - unfold realloc. destruct (ptr =? NULL).
    { intros Hm. now destruct (malloc_frame heap size s s' p Hok Hm). }
    destruct (size =? 0).
    { unfold bind, free, emit, ret. intros [= _ <-]. reflexivity. }
    unfold bind at 1.
    destruct (load_header_size _ s) as [old s0| |] eqn:Hld; try discriminate.
    apply load_header_size_state in Hld. destruct Hld as [-> _].
    destruct (size <=? old); [unfold ret; intros [= _ <-]; reflexivity|].
    unfold bind at 1.
    destruct (malloc heap size s) as [p0 s1| |] eqn:Hm; try discriminate.
    destruct (malloc_frame heap _ s s1 p0 Hok Hm) as [Hfr Hblock].
    unfold bind at 1. destruct (Z.eqb_spec p0 NULL) as [E|E]; cbn [negb].
    + unfold bind, ret. intros [= _ <-]. exact Hfr.
    + unfold bind at 1. unfold memcpy.
      destruct (_ && _); [|discriminate].
      unfold set_mem, free, emit, ret, bind. intros [= _ <-] a Ha. cbn [mem].
      destruct Hblock as [Hn | Hlo]; [contradiction|].
      rewrite memcpy_bytes_outside by (unfold sizeof_header_s in *; lia).
      now apply Hfr.
  - unfold bind, free, emit, ret. intros [= _ <-]. reflexivity.
Qed.

Lemma run_frame (heap : Z) (rs : list request) :
  forall (s s' : state) (ps : list Z),
    reserved_low s -> mmap_answer heap -> Forall modest_request rs ->
    run heap rs s = Done ps s' ->
    forall a : Z, a < free_addr s -> mem s' a = mem s a.
Proof.
  induction rs as [|r rest IH]; intros s s' ps Hlow Hmm Hall.
  - cbn. unfold ret. intros [= _ <-]. reflexivity.
  - inversion Hall as [|? ? Hr Hrest]; subst.
    cbn [run]. unfold bind at 1.
    destruct (serve heap r s) as [p s1| |] eqn:Hsv; try discriminate.
    unfold bind at 1.
    destruct (run heap rest s1) as [ps1 s2| |] eqn:Hrun; try discriminate.
    unfold ret. intros [= _ <-] a Ha.
    pose proof (heap_ok_initialised s (proj1 Hlow)) as Hi.
    destruct (serve_step heap r s s1 p (or_intror Hlow) Hmm Hr Hsv)
      as [Hs1 Hmono].
    destruct (serve_bounds heap r s s1 p Hi Hsv) as [Hst _].
    assert (Hlow1 : reserved_low s1)
      by (apply settled_reserved; [exact Hs1 | congruence]).
    rewrite (IH s1 s2 ps1 Hlow1 Hmm Hrest Hrun a) by lia.
    now apply (serve_frame heap r s s1 p (proj1 Hlow) Hsv).
Qed.

(** X11.  The allocator writes above the cursor only.  Over any sequence
    of modest requests on a reserved region, every byte below the cursor the
    sequence started from keeps its value; so every live block stays live,
    with the same header and the same payload, whatever is allocated,
    resized or deallocated afterwards, the block itself included. *)
Theorem live_blocks_are_preserved
  (heap : Z) (rs : list request) (s s' : state) (ps : list Z) :
  reserved_low s -> mmap_answer heap -> Forall modest_request rs ->
  run heap rs s = Done ps s' ->
  (forall a : Z, a < free_addr s -> mem s' a = mem s a) /\
  (forall p n : Z,
      live_block s p n ->
      live_block s' p n /\
      forall i : Z, 0 <= i < n -> mem s' (p + i) = mem s (p + i)).
Proof.
  intros Hlow Hmm Hall Hrun.
  pose proof (run_frame heap rs s s' ps Hlow Hmm Hall Hrun) as Hfr.
  split; [exact Hfr|].
  intros p n (Hn & Hlo & Hhi & Hhdr).
  pose proof (heap_ok_initialised s (proj1 Hlow)) as Hi.
  destruct (run_bounds heap rs s s' ps Hi Hrun) as [Hst _].
  destruct (run_keeps_region heap rs s s' ps (or_intror Hlow) Hmm Hall Hrun)
    as (_ & _ & Hmono).
  split.
  - unfold live_block. rewrite Hst.
    repeat split; try lia.
    rewrite <- Hhdr. apply load64_agree.
    intros x Hx. apply Hfr. unfold sizeof_header_s in *. lia.
  - intros i Hi'. apply Hfr. lia.
Qed.

Lemma live_blocks_are_preserved_witness :
  live_block
    (state_of
       (run heap0 [Deallocate x_block; Allocate 19; Resize x_block 100]
          with_pattern) with_pattern) x_block 24 /\
  mem
    (state_of
       (run heap0 [Deallocate x_block; Allocate 19; Resize x_block 100]
          with_pattern) with_pattern) (x_block + 7) =
  mem with_pattern (x_block + 7).
Proof.
  destruct (live_blocks_are_preserved heap0
              [Deallocate x_block; Allocate 19; Resize x_block 100]
              with_pattern
              (state_of
                 (run heap0 [Deallocate x_block; Allocate 19; Resize x_block 100]
                    with_pattern) with_pattern)
              (match run heap0
                       [Deallocate x_block; Allocate 19; Resize x_block 100]
                       with_pattern
               with Done ps _ => ps | _ => [] end)) as [_ H].
  - split; [exact heap_ok_with_pattern | vm_compute; discriminate].
  - exact mmap_answer_heap0.
  - repeat constructor; vm_compute; try discriminate; reflexivity.
  - reflexivity.
  - destruct (H x_block 24 live_block_with_pattern) as [Hl Hm].
    split; [exact Hl | apply Hm; lia].
Defined.

(* ====================================================================== *)
(** ** Further properties: [free] *)

(** X12.  [free] reclaims nothing and is invisible to allocation: on a
    reserved region, deallocating any pointer (null, live, already freed or
    never returned) and then calling [malloc] or [calloc] gives the same
    result and the same final state as making the allocation first and
    the deallocation after it. *)
Theorem free_commutes_with_allocation
  (heap ptr nmemb size : Z) (s : state) :
  start_addr s <> 0 ->
  bind (free ptr) (fun _ => malloc heap size) s =
    bind (malloc heap size) (fun p => free ptr ;; ret p) s /\
  bind (free ptr) (fun _ => calloc heap nmemb size) s =
    bind (calloc heap nmemb size) (fun p => free ptr ;; ret p) s.
Proof.
  intros Hi.
  assert (Hm : forall n,
             bind (free ptr) (fun _ => malloc heap n) s =
             bind (malloc heap n) (fun p => free ptr ;; ret p) s).
  { intros n. unfold bind at 1. unfold free at 1, emit.
    rewrite malloc_initialised by exact Hi.
    unfold bind at 1. rewrite malloc_initialised by exact Hi.
    unfold carve, in_heap. cbn [free_addr start_addr end_addr mem diag].
    destruct (n =? 0); [reflexivity|].
    destruct (_ >? _); [reflexivity|].
    destruct (_ && _); reflexivity. }
  split; [apply Hm|].
  specialize (Hm (umul nmemb size)).
  unfold bind at 1 in Hm. unfold free at 1, emit in Hm.
  unfold bind at 1. unfold free at 1, emit.
  unfold bind at 2. rewrite !calloc_request.
  unfold bind at 1. rewrite Hm.
  unfold calloc, bind, free, emit, ret.
  destruct (malloc heap (umul nmemb size) s) as [p0 s1| |]; try reflexivity.
  destruct (negb (p0 =? NULL)); [|reflexivity].
  unfold memset, in_heap, set_mem.
  cbn [free_addr start_addr end_addr mem diag].
  destruct (_ && _); reflexivity.
Qed.

Lemma free_commutes_with_allocation_witness :
  bind (free x_block) (fun _ => malloc heap0 19) with_x =
    bind (malloc heap0 19) (fun p => free x_block ;; ret p) with_x.
Proof.
  destruct (free_commutes_with_allocation heap0 x_block 0 19 with_x)
    as [H _].
  - vm_compute. discriminate.
  - exact H.
Defined.

(* ====================================================================== *)
(** ** Further properties: [realloc] and [calloc] *)

(** X13.  A shrink is forgotten.  After [realloc] to a smaller size has
    returned a live block in place, a later [realloc] of the same pointer
    behaves exactly as if the shrink had not happened; in particular a
    later grow copies all [old_size] bytes the header still records, the
    bytes past the shrunk size included. *)
Theorem shrink_then_grow
  (heap ptr small big old_size : Z) (s : state) :
  heap_ok s -> live_block s ptr old_size ->
  0 < small <= old_size -> old_size < big ->
  bind (realloc heap ptr small) (fun _ => realloc heap ptr big) s =
    realloc heap ptr big s /\
  (forall (q : Z) (s' : state),
      bind (realloc heap ptr small) (fun _ => realloc heap ptr big) s
        = Done q s' ->
      q <> NULL ->
      forall i : Z, 0 <= i < old_size -> mem s' (q + i) = mem s (ptr + i)).
Proof.
  intros Hok Hlive [Hpos Hle] Hlt.
  pose proof (live_block_recorded s ptr old_size Hok Hlive) as Hrec.
  pose proof (live_block_bounds s ptr old_size Hok Hlive) as (Hp & Hb & Hh & Hn).
  pose proof (padding_range (free_addr s)) as Hpad.
  assert (Heq : bind (realloc heap ptr small) (fun _ => realloc heap ptr big) s
                = realloc heap ptr big s).
  { unfold bind at 1.
    rewrite (realloc_fits_in_place heap ptr small old_size); trivial.
    - unfold NULL, sizeof_header_s in *. lia.
    - lia. }
  split; [exact Heq|].
  intros q s' Hr Hq i Hi. rewrite Heq in Hr.
  destruct (realloc_grow_outcome heap ptr big old_size q s s'
              Hok Hlive Hlt Hr Hq) as (Hqv & _ & ->).
  cbn [mem]. rewrite memcpy_bytes_inside by assumption.
  apply store64_outside. unfold sizeof_header_s in *. lia.
Qed.

Lemma shrink_then_grow_witness :
  bind (realloc heap0 x_block 5) (fun _ => realloc heap0 x_block 100)
    with_pattern = realloc heap0 x_block 100 with_pattern /\
  mem with_x_grown (x_grown + 23) = mem with_pattern (x_block + 23) /\
  mem with_pattern (x_block + 23) = 23.
Proof.
  destruct (shrink_then_grow heap0 x_block 5 100 24 with_pattern
              heap_ok_with_pattern live_block_with_pattern) as [Heq Hcopy].
  - lia.
  - lia.
  - split; [exact Heq|]. split; [|reflexivity].
    apply (Hcopy x_grown with_x_grown).
    + rewrite Heq. reflexivity.
    + discriminate.
    + lia.
Defined.

(** X14.  A grow relocates and leaks.  For a live block and a larger
    size whose sums do not wrap: if the new block fits, [realloc] returns it
    at [cursor + padding + 8]; afterwards the old block is still live with
    its recorded size, the new block is live with the new size, the new
    header starts at or after the end of the old payload, and the cursor is
    at the end of the new payload.  If the new block does not fit,
    [realloc] returns null and the state is unchanged. *)
Theorem realloc_grow_keeps_both_blocks
  (heap ptr size old_size : Z) (s : state) :
  heap_ok s -> live_block s ptr old_size ->
  old_size < size -> no_wrap s size ->
  (free_addr s + padding (free_addr s) + sizeof_header_s + size <= end_addr s ->
   exists s' : state,
     realloc heap ptr size s =
       Done (free_addr s + padding (free_addr s) + sizeof_header_s) s' /\
     live_block s' ptr old_size /\
     live_block s'
       (free_addr s + padding (free_addr s) + sizeof_header_s) size /\
     ptr + old_size <= free_addr s + padding (free_addr s) /\
     free_addr s' =
       free_addr s + padding (free_addr s) + sizeof_header_s + size /\
     heap_ok s') /\
  (end_addr s < free_addr s + padding (free_addr s) + sizeof_header_s + size ->
   realloc heap ptr size s = Done NULL s).
Proof.
  intros Hok Hlive Hlt Hnw.
  pose proof (live_block_recorded s ptr old_size Hok Hlive) as Hrec.
  pose proof (live_block_bounds s ptr old_size Hok Hlive) as (Hp & Hb & Hh & Hn).
  pose proof (heap_ok_initialised s Hok) as Hi.
  pose proof (heap_ok_cursor s Hok) as Hc.
  pose proof (padding_range (free_addr s)) as Hpad.
  pose proof (no_wrap_is_size_t s size Hok Hnw) as Hsz.
  split.
  - intros Hfit.
    destruct (realloc_grow_succeeds heap ptr size old_size s Hok Hlive Hlt Hfit)
      as (s' & Hr & Hq).
    exists s'. split; [exact Hr|].
    destruct (realloc_grow_outcome heap ptr size old_size _ s s'
                Hok Hlive Hlt Hr Hq) as (_ & _ & ->).
    destruct Hok as (Hst & (Hlo & Hhi) & Hend).
    destruct Hlive as (_ & Hs8 & _ & Hhdr).
    destruct Hnw as [Hs Hw].
    unfold live_block, heap_ok, region_invariant.
    cbn [free_addr start_addr end_addr mem].
    rewrite new_free_addr_at_exact by lia.
    unfold sizeof_header_s in *.
    repeat split; try lia.
    + rewrite <- Hhdr. apply load64_agree. intros x Hx.
      rewrite memcpy_bytes_outside by lia.
      apply store64_outside. lia.
    + rewrite (load64_agree _
                 (store64 (mem s) (free_addr s + padding (free_addr s)) size)).
      * replace (free_addr s + padding (free_addr s) + 8 - 8)
          with (free_addr s + padding (free_addr s)) by lia.
        now apply load64_store64.
      * intros x Hx. apply memcpy_bytes_outside. lia.
  - intros Hover.
    rewrite (realloc_of_block heap ptr size old_size);
      [| unfold NULL, sizeof_header_s in *; lia | lia | assumption].
    destruct (Z.leb_spec size old_size); [lia|].
    unfold bind at 1. rewrite malloc_initialised by assumption.
    rewrite carve_exhausted by (trivial; lia).
    reflexivity.
Qed.

Lemma realloc_grow_keeps_both_blocks_witness :
  exists s' : state,
    realloc heap0 x_block 100 with_pattern = Done x_grown s' /\
    live_block s' x_block 24 /\ live_block s' x_grown 100.
Proof.
  destruct (realloc_grow_keeps_both_blocks heap0 x_block 100 24 with_pattern
              heap_ok_with_pattern live_block_with_pattern) as [H _].
  - lia.
  - unfold no_wrap. vm_compute. repeat split.
  - destruct H as (s' & Hr & Hl1 & Hl2 & _).
    + vm_compute. discriminate.
    + exists s'. auto.
Defined.

(** X15.  [calloc] is [malloc] followed by clearing.  On a reserved
    region, for a total (the product modulo [2^64]) whose sums do not wrap:
    if the block fits, [calloc] returns the address [malloc] would return
    and leaves the cursor where [malloc] would leave it, the header records
    the total, every payload byte is 0, and every other byte is as [malloc]
    leaves it; if the block does not fit, [calloc] returns null, clears
    nothing and leaves the state unchanged. *)
Theorem calloc_is_malloc_then_clear
  (heap nmemb size : Z) (s : state) :
  heap_ok s -> no_wrap s (umul nmemb size) ->
  (free_addr s + padding (free_addr s) + sizeof_header_s + umul nmemb size
     <= end_addr s ->
   exists (p : Z) (s1 s' : state),
     malloc heap (umul nmemb size) s = Done p s1 /\
     calloc heap nmemb size s = Done p s' /\
     p <> NULL /\
     same_region s1 s' /\ diag s' = diag s /\
     recorded_size s' p (umul nmemb size) /\
     (forall i : Z, 0 <= i < umul nmemb size -> mem s' (p + i) = 0) /\
     (forall a : Z,
         a < p \/ p + umul nmemb size <= a -> mem s' a = mem s1 a)) /\
  (end_addr s
     < free_addr s + padding (free_addr s) + sizeof_header_s + umul nmemb size ->
   calloc heap nmemb size s = Done NULL s).
Proof.
  intros Hok Hnw.
  pose proof (heap_ok_initialised s Hok) as Hi.
  pose proof (heap_ok_cursor s Hok) as Hc.
  pose proof (padding_range (free_addr s)) as Hpad.
  split.
  - intros Hfit.
    destruct (carve_fits (umul nmemb size) s Hok (proj1 Hnw) Hfit)
      as [Hcv Hnew].
    pose proof (calloc_fits heap nmemb size s Hok (proj1 Hnw) Hfit) as Hcal.
    eexists _, _, _.
    split; [rewrite malloc_initialised by assumption; exact Hcv|].
    split; [exact Hcal|].
    destruct Hok as (Hst & (Hlo & Hhi) & Hend).
    pose proof (proj1 Hnw) as Hw0.
    unfold same_region, recorded_size, load_header_size, in_heap.
    cbn [free_addr start_addr end_addr mem diag carved].
    rewrite header_of_exact by (unfold sizeof_header_s in *; lia).
    rewrite header_ptr_at_exact by lia.
    unfold sizeof_header_s, NULL in *.
    split; [lia|]. split.
    { repeat split; try reflexivity. symmetry.
      unfold carved in Hnew. cbn [free_addr] in Hnew. exact Hnew. }
    split; [reflexivity|]. split; [|split].
    + destruct (Z.leb_spec (start_addr s)
                  (free_addr s + padding (free_addr s) + 8 - 8)); [|lia].
      destruct (Z.leb_spec (free_addr s + padding (free_addr s) + 8 - 8 + 8)
                  (end_addr s)); [|lia].
      cbn [andb]. f_equal.
      rewrite (load64_agree _
                 (store64 (mem s) (free_addr s + padding (free_addr s))
                    (umul nmemb size))).
      * replace (free_addr s + padding (free_addr s) + 8 - 8)
          with (free_addr s + padding (free_addr s)) by lia.
        apply load64_store64, umul_range.
      * intros x Hx. apply memset_bytes_outside. lia.
    + intros i Hi'. rewrite memset_bytes_inside by lia. reflexivity.
    + intros a Ha. apply memset_bytes_outside. lia.
  - intros Hover.
    rewrite calloc_request. unfold bind at 1.
    rewrite malloc_initialised by assumption.
    rewrite carve_exhausted by (trivial; lia).
    reflexivity.
Qed.

Lemma calloc_is_malloc_then_clear_witness :
  calloc heap0 (2 ^ 31) 1 with_x = Done NULL with_x.
Proof.
  apply (proj2 (calloc_is_malloc_then_clear heap0 (2 ^ 31) 1 with_x
                  heap_ok_with_x
                  ltac:(unfold no_wrap; vm_compute; repeat split))).
  vm_compute. reflexivity.
Defined.

(* ====================================================================== *)
(** ** Further properties: [main] of pb-alloc.c *)

Lemma live_block_frame (s s' : state) (p n : Z) :
  (forall a : Z, a < free_addr s -> mem s' a = mem s a) ->
  start_addr s' = start_addr s -> free_addr s <= free_addr s' ->
  live_block s p n -> live_block s' p n.
Proof.
  intros Hfr Hst Hmono (Hn & Hlo & Hhi & Hhdr).
  unfold live_block. rewrite Hst. repeat split; try lia.
  rewrite <- Hhdr. apply load64_agree.
  intros x Hx. apply Hfr. unfold sizeof_header_s in *. lia.
Qed.

(** A request that fits, on a reserved region: everything the call
    establishes. *)
Lemma malloc_fits_block (heap size : Z) (s : state) :
  heap_ok s -> no_wrap s size ->
  free_addr s + padding (free_addr s) + sizeof_header_s + size <= end_addr s ->
  exists s' : state,
    malloc heap size s =
      Done (free_addr s + padding (free_addr s) + sizeof_header_s) s' /\
    (free_addr s + padding (free_addr s) + sizeof_header_s) mod 16 = 0 /\
    free_addr s' =
      free_addr s + padding (free_addr s) + sizeof_header_s + size /\
    heap_ok s' /\
    start_addr s' = start_addr s /\ end_addr s' = end_addr s /\
    diag s' = diag s /\
    live_block s'
      (free_addr s + padding (free_addr s) + sizeof_header_s) size /\
    (forall a : Z, a < free_addr s -> mem s' a = mem s a).
Proof.
  intros Hok Hnw Hfit.
  pose proof (heap_ok_initialised s Hok) as Hi.
  pose proof (heap_ok_cursor s Hok) as Hc.
  pose proof (padding_range (free_addr s)) as Hpad.
  pose proof (no_wrap_is_size_t s size Hok Hnw) as Hsz.
  destruct (carve_fits size s Hok (proj1 Hnw) Hfit) as [Hcv Hnew].
  assert (Hm : malloc heap size s =
               Done (free_addr s + padding (free_addr s) + sizeof_header_s)
                    (carved size s))
    by (rewrite malloc_initialised by assumption; exact Hcv).
  exists (carved size s). split; [exact Hm|].
  assert (Hp : free_addr s + padding (free_addr s) + sizeof_header_s <> NULL)
    by (unfold NULL, sizeof_header_s; lia).
  destruct (malloc_live_block heap size s _ _ Hok Hnw Hsz Hm Hp)
    as (Hlive & Hok' & _ & _).
  destruct (malloc_frame heap size s _ _ Hok Hm) as [Hfr _].
  split; [apply padding_aligns|].
  split; [exact Hnew|]. split; [exact Hok'|].
  repeat split; try assumption; apply Hlive.
Qed.

(** X16.  The stand-alone program of pb-alloc.c.  In a new process whose
    [mmap] succeeds with a mapping in user space, [main] returns 0: its
    three blocks [x], [y], [z] of 16, 64 and 32 bytes are 16-byte aligned
    and laid out in that order without overlap; each payload starts at
    least 8 and at most 23 bytes after the end of the previous payload (the
    start of the region for [x]); the three blocks are still live when [main]
    returns although each has been passed to [free], and the diagnostics
    show the three deallocations in the order [z], [y], [x] after the two
    messages of [init].  When [mmap] fails the program stops at its first
    [malloc]. *)
Theorem alloc_main_runs (heap : Z) (s : state) :
  pristine s -> 0 < heap -> heap + HEAP_SIZE <= user_space_limit ->
  (exists (x y z : Z) (s' : state),
      AllocMain.main heap s = Done 0 s' /\
      x mod 16 = 0 /\ y mod 16 = 0 /\ z mod 16 = 0 /\
      heap + sizeof_header_s <= x <= heap + 23 /\
      x + 16 + sizeof_header_s <= y <= x + 16 + 23 /\
      y + 64 + sizeof_header_s <= z <= y + 64 + 23 /\
      free_addr s' = z + 32 /\ z + 32 <= heap + 181 /\
      live_block s' x 16 /\ live_block s' y 64 /\ live_block s' z 32 /\
      diag s' =
        DebugVal "free(): " x :: DebugVal "free(): " y ::
        DebugVal "free(): " z ::
        Debug "bp-alloc initialized" :: Debug "Trying to initialize" ::
        diag s) /\
  AllocMain.main MAP_FAILED s = Fatal "Could not mmap() heap region".
Proof.
  intros Hpr Hpos Htop. split.
  - assert (Hmm : mmap_answer heap) by (right; auto).
    rewrite HEAP_SIZE_value, user_space_limit_value in Htop.
    assert (Hne : heap <> MAP_FAILED) by (rewrite MAP_FAILED_value; lia).
    pose proof Hpr as (Hz & _ & _).
    pose proof (init_first_use heap s Hz Hne) as Hinit.
    destruct (init_settled heap s _ tt (or_introl Hpr) Hmm Hinit)
      as ([Hok1 Hlim1] & _ & _).
    set (s1 := reserved heap s) in *.
    assert (Hh63 : 0 <= heap < half_modulus)
      by (rewrite half_modulus_value; lia).
    assert (Hfree1 : free_addr s1 = heap).
    { unfold s1, reserved. cbn [free_addr]. now apply to_intptr_t_small. }
    assert (Hstart1 : start_addr s1 = heap) by exact Hfree1.
    assert (Hend1 : end_addr s1 = heap + 2147483648).
    { unfold s1, reserved. cbn [end_addr].
      rewrite HEAP_SIZE_value.
      rewrite (to_intptr_t_small heap) by assumption.
      rewrite uadd_exact by (rewrite ?modulus_value; lia).
      apply to_intptr_t_small. rewrite half_modulus_value. lia. }
    rewrite user_space_limit_value in Hlim1.
    pose proof (padding_range (free_addr s1)) as Hpad1.
    (* x *)
    destruct (malloc_fits_block heap 16 s1 Hok1) as
      (s2 & Hm2 & Hal2 & Hf2 & Hok2 & Hst2 & Hen2 & Hd2 & Hl2 & _).
    { unfold no_wrap, sizeof_header_s. rewrite half_modulus_value. lia. }
    { unfold sizeof_header_s. lia. }
    remember (free_addr s1 + padding (free_addr s1) + sizeof_header_s)
      as x eqn:Hx.
    pose proof (padding_range (free_addr s2)) as Hpad2.
    unfold sizeof_header_s in Hx, Hf2.
    (* y *)
    destruct (malloc_fits_block heap 64 s2 Hok2) as
      (s3 & Hm3 & Hal3 & Hf3 & Hok3 & Hst3 & Hen3 & Hd3 & Hl3 & Hfr3).
    { unfold no_wrap, sizeof_header_s. rewrite half_modulus_value. lia. }
    { unfold sizeof_header_s. lia. }
    remember (free_addr s2 + padding (free_addr s2) + sizeof_header_s)
      as y eqn:Hy.
    pose proof (padding_range (free_addr s3)) as Hpad3.
    unfold sizeof_header_s in Hy, Hf3.
    (* z *)
    destruct (malloc_fits_block heap 32 s3 Hok3) as
      (s4 & Hm4 & Hal4 & Hf4 & Hok4 & Hst4 & Hen4 & Hd4 & Hl4 & Hfr4).
    { unfold no_wrap, sizeof_header_s. rewrite half_modulus_value. lia. }
    { unfold sizeof_header_s. lia. }
    remember (free_addr s3 + padding (free_addr s3) + sizeof_header_s)
      as z eqn:Hz'.
    unfold sizeof_header_s in Hz', Hf4.
    assert (Hlx3 : live_block s3 x 16).
    { apply (live_block_frame s2 s3); trivial. lia. }
    assert (Hlx4 : live_block s4 x 16).
    { apply (live_block_frame s3 s4); trivial. lia. }
    assert (Hly4 : live_block s4 y 64).
    { apply (live_block_frame s3 s4); trivial. lia. }
    assert (Hx63 : 0 <= x < half_modulus)
      by (rewrite half_modulus_value; lia).
    assert (Hy63 : 0 <= y < half_modulus)
      by (rewrite half_modulus_value; lia).
    assert (Hz63 : 0 <= z < half_modulus)
      by (rewrite half_modulus_value; lia).
    exists x, y, z,
      (with_diag
         (DebugVal "free(): " x :: DebugVal "free(): " y ::
          DebugVal "free(): " z :: diag s4) s4).
    split.
    { unfold AllocMain.main. unfold bind at 1.
      rewrite malloc_carve. unfold bind at 1. rewrite Hinit.
      fold s1.
      rewrite <- (malloc_initialised heap 16 s1)
        by now apply heap_ok_initialised.
      rewrite Hm2. unfold bind at 1. rewrite Hm3.
      unfold bind at 1. rewrite Hm4.
      unfold bind, free, emit, ret, with_diag.
      cbn [free_addr start_addr end_addr mem diag].
      rewrite !to_intptr_t_small by assumption. reflexivity. }
    split; [exact Hal2|]. split; [exact Hal3|]. split; [exact Hal4|].
    unfold live_block in *. cbn [with_diag free_addr start_addr mem diag].
    rewrite Hd4, Hd3, Hd2.
    unfold sizeof_header_s in *.
    repeat split; try lia; try tauto.
  - unfold AllocMain.main. unfold bind at 1.
    rewrite malloc_carve. unfold bind at 1.
    rewrite init_fatal; [reflexivity | apply Hpr | reflexivity].
Qed.

Lemma alloc_main_runs_witness :
  exists (x y z : Z) (s' : state),
    AllocMain.main heap0 boot = Done 0 s' /\
    x mod 16 = 0 /\ y mod 16 = 0 /\ z mod 16 = 0 /\
    free_addr s' = z + 32.
Proof.
  destruct (alloc_main_runs heap0 boot) as [(x & y & z & s' & H) _].
  - repeat split.
  - reflexivity.
  - vm_compute. discriminate.
  - exists x, y, z, s'. tauto.
Defined.

(* ====================================================================== *)
(** ** Further properties: the test client (memtest.c) *)

Lemma realloc_grow_refused (heap ptr size old_size : Z) (s : state) :
  heap_ok s -> live_block s ptr old_size ->
  old_size < size -> no_wrap s size ->
  end_addr s < free_addr s + padding (free_addr s) + sizeof_header_s + size ->
  realloc heap ptr size s = Done NULL s.
Proof.
  intros Hok Hlive Hlt Hnw Hover.
  pose proof (live_block_recorded s ptr old_size Hok Hlive) as Hrec.
  pose proof (live_block_bounds s ptr old_size Hok Hlive) as (Hp & Hb & Hh & Hn).
  pose proof (heap_ok_initialised s Hok) as Hi.
  rewrite (realloc_of_block heap ptr size old_size);
    [| unfold NULL, sizeof_header_s in *; lia | lia | assumption].
  destruct (Z.leb_spec size old_size); [lia|].
  unfold bind at 1. rewrite malloc_initialised by assumption.
  rewrite carve_exhausted by (trivial; lia).
  reflexivity.
Qed.

(** X17.  TEST_1 and TEST_2 of the client pass: for a live block [x]
    whose header records 24 bytes, [realloc(x, 24)] and [realloc(x, 22)]
    both return [x], each test prints its PASSES line, and neither changes
    the state. *)
Theorem memtest_shrink_tests_pass (heap x : Z) (s : state) :
  heap_ok s -> live_block s x 24 ->
  Memtest.test_1 heap x s =
    Done (x, [Memtest.Pointer "x_old = " x; Memtest.Pointer "x_new = " x;
              Memtest.Text
                "TEST_1 (without copying when new_size == old_size) PASSES"])
         s /\
  Memtest.test_2 heap x s =
    Done (x, [Memtest.Pointer "x_old = " x; Memtest.Pointer "x_new = " x;
              Memtest.Text
                "TEST_2 (without copying when new_size < old_size) PASSES"])
         s.
Proof.
  intros Hok Hlive.
  pose proof (live_block_recorded s x 24 Hok Hlive) as Hrec.
  pose proof (live_block_bounds s x 24 Hok Hlive) as (Hp & _).
  assert (Hx : x <> NULL) by (unfold NULL, sizeof_header_s in *; lia).
  unfold Memtest.test_1, Memtest.test_2, bind.
  rewrite (realloc_fits_in_place heap x 24 24 s) by (trivial; lia).
  rewrite (realloc_fits_in_place heap x 22 24 s) by (trivial; lia).
  unfold ret. rewrite Z.eqb_refl. split; reflexivity.
Qed.

Lemma memtest_shrink_tests_pass_witness :
  result_of (Memtest.test_1 heap0 x_block with_x) =
    Some (x_block,
          [Memtest.Pointer "x_old = " x_block;
           Memtest.Pointer "x_new = " x_block;
           Memtest.Text
             "TEST_1 (without copying when new_size == old_size) PASSES"]).
Proof.
  rewrite (proj1 (memtest_shrink_tests_pass heap0 x_block with_x
                    heap_ok_with_x live_block_with_x)).
  reflexivity.
Defined.

(** X18.  TEST_3 of the client reports a failure whenever the allocator
    behaves as documented.  For a live block [y] whose header records 19
    bytes, on a region reserved in user space, [realloc(y, 23)] returns
    either a new block or null, never [y]; the test compares [y == y_new]
    and therefore prints its FAILS line. *)
Theorem memtest_test_3_reports_failure (heap y : Z) (s : state) :
  reserved_low s -> live_block s y 19 ->
  exists (y_new : Z) (s' : state),
    Memtest.test_3 heap y s =
      Done (y_new,
            [Memtest.Text
               "TEST_3 (with copying when new_size > old_size) FAILS"]) s' /\
    y_new <> y.
Proof.
  intros Hlow Hlive. pose proof Hlow as [Hok _].
  pose proof (live_block_bounds s y 19 Hok Hlive) as (Hp & Hb & Hh & _).
  pose proof (padding_range (free_addr s)) as Hpad.
  assert (Hnw : no_wrap s 23).
  { apply modest_no_wrap; trivial; [|lia].
    split; [lia | reflexivity]. }
  unfold Memtest.test_3, bind.
  destruct (Z_le_gt_dec
              (free_addr s + padding (free_addr s) + sizeof_header_s + 23)
              (end_addr s)) as [Hfit|Hover].
  - destruct (realloc_grow_succeeds heap y 23 19 s Hok Hlive) as (s' & Hr & _);
      [lia | exact Hfit |].
    rewrite Hr. unfold ret.
    exists (free_addr s + padding (free_addr s) + sizeof_header_s), s'.
    unfold sizeof_header_s in *.
    destruct (Z.eqb_spec y (free_addr s + padding (free_addr s) + 8)); [lia|].
    split; [reflexivity | lia].
  - rewrite (realloc_grow_refused heap y 23 19 s) by (trivial; lia).
    unfold ret. exists NULL, s.
    unfold NULL, sizeof_header_s in *.
    destruct (Z.eqb_spec y 0); [lia|].
    split; [reflexivity | lia].
Qed.

Lemma memtest_test_3_reports_failure_witness :
  exists (y_new : Z) (s' : state),
    Memtest.test_3 heap0 y_block with_xy =
      Done (y_new,
            [Memtest.Text
               "TEST_3 (with copying when new_size > old_size) FAILS"]) s' /\
    y_new <> y_block.
Proof.
  apply (memtest_test_3_reports_failure heap0 y_block with_xy).
  - split.
    + unfold heap_ok, region_invariant. vm_compute.
      repeat split; discriminate.
    + vm_compute. discriminate.
  - unfold live_block. vm_compute. repeat split; discriminate.
Defined.

Lemma aligned16_of_mod (p : Z) : p mod 16 = 0 -> Memtest.aligned16 p = true.
Proof.
  intros Hp. unfold Memtest.aligned16. apply Z.eqb_eq.
  apply Z.rem_mod_eq_0; [lia|].
  pose proof (mod_modulus_mod16 p) as Hu. rewrite Hp in Hu.
  unfold to_intptr_t.
  destruct (p mod modulus <? half_modulus); [exact Hu|].
  rewrite modulus_value in *.
  Z.to_euclidean_division_equations. lia.
Qed.

(** X19.  The alignment tests of the client pass in every state.
    Whenever the three [malloc] calls of TEST_5 return, null results
    included, the test prints its PASSES line; and whenever the three
    [realloc] calls of TEST_6 return, for pointers that are multiples of 16
    (as every pointer TEST_5 obtains is), that test prints its PASSES
    line. *)
Theorem memtest_alignment_tests_pass (heap : Z) :
  (forall (s s' : state) (ptr1 ptr2 ptr3 : Z) (out : list Memtest.output),
      Memtest.test_5 heap s = Done (ptr1, ptr2, ptr3, out) s' ->
      out = [Memtest.Text "TEST_5 (malloc alignment) PASSES"] /\
      ptr1 mod 16 = 0 /\ ptr2 mod 16 = 0 /\ ptr3 mod 16 = 0) /\
  (forall (s s' : state) (ptr1 ptr2 ptr3 q1 q2 q3 : Z)
          (out : list Memtest.output),
      ptr1 mod 16 = 0 -> ptr2 mod 16 = 0 -> ptr3 mod 16 = 0 ->
      Memtest.test_6 heap ptr1 ptr2 ptr3 s = Done (q1, q2, q3, out) s' ->
      out = [Memtest.Text "TEST_6 (realloc alignment) PASSES"]).
Proof.
  split.
  - intros s s' ptr1 ptr2 ptr3 out. unfold Memtest.test_5.
    unfold bind at 1.
    destruct (malloc heap 111 s) as [p1 s1| |] eqn:H1; try discriminate.
    unfold bind at 1.
    destruct (malloc heap 222 s1) as [p2 s2| |] eqn:H2; try discriminate.
    unfold bind at 1.
    destruct (malloc heap 12 s2) as [p3 s3| |] eqn:H3; try discriminate.
    unfold ret. intros [= <- <- <- <- _].
    pose proof (malloc_aligned _ _ _ _ _ H1) as A1.
    pose proof (malloc_aligned _ _ _ _ _ H2) as A2.
    pose proof (malloc_aligned _ _ _ _ _ H3) as A3.
    rewrite !aligned16_of_mod by assumption. auto.
  - intros s s' ptr1 ptr2 ptr3 q1 q2 q3 out A1 A2 A3. unfold Memtest.test_6.
    unfold bind at 1.
    destruct (realloc heap ptr1 92 s) as [p1 s1| |] eqn:H1; try discriminate.
    unfold bind at 1.
    destruct (realloc heap ptr2 141 s1) as [p2 s2| |] eqn:H2; try discriminate.
    unfold bind at 1.
    destruct (realloc heap ptr3 1 s2) as [p3 s3| |] eqn:H3; try discriminate.
    unfold ret. intros [= <- <- <- <- _].
    pose proof (realloc_aligned _ _ _ _ _ _ A1 H1) as B1.
    pose proof (realloc_aligned _ _ _ _ _ _ A2 H2) as B2.
    pose proof (realloc_aligned _ _ _ _ _ _ A3 H3) as B3.
    rewrite !aligned16_of_mod by assumption. reflexivity.
Qed.

Lemma memtest_alignment_tests_pass_witness :
  snd (match Memtest.test_6 heap0 x_block y_block NULL with_xy with
       | Done r _ => r
       | _ => (0, 0, 0, [])
       end) = [Memtest.Text "TEST_6 (realloc alignment) PASSES"].
Proof.
  apply (proj2 (memtest_alignment_tests_pass heap0)
           with_xy
           (state_of (Memtest.test_6 heap0 x_block y_block NULL with_xy) with_xy)
           x_block y_block NULL
           (heap0 + 80) (heap0 + 192) (heap0 + 352)).
  - reflexivity.
  - reflexivity.
  - reflexivity.
  - reflexivity.
Defined.

Lemma index_exact (arr i : Z) :
  0 <= arr < half_modulus -> 0 <= i < 13 ->
  Memtest.index arr i = arr + 8 * i.
Proof.
  intros Ha Hi. rewrite half_modulus_value in Ha.
  unfold Memtest.index. rewrite umul_exact
    by (unfold is_size_t; rewrite modulus_value; lia).
  rewrite uadd_exact by (rewrite ?modulus_value; lia). lia.
Qed.

Lemma load64_shift (m1 m2 : memory) (a b : Z) :
  (forall k : Z, 0 <= k < 8 -> m1 (a + k) = m2 (b + k)) ->
  load64 m1 a = load64 m2 b.
Proof.
  intros H. unfold load64, load_bytes. cbn [map seq].
  rewrite !H by lia. reflexivity.
Qed.

(** The first loop of TEST_4 writes at and above [arr] only, and leaves
    the cursor, the bounds and the diagnostics alone. *)
Lemma fill_effect (arr : Z) (l : list Z) :
  0 <= arr < half_modulus -> Forall (fun i => 0 <= i < 13) l ->
  forall (s s' : state) (u : unit),
    Memtest.for_each l
      (fun ct => Memtest.write_size_t (Memtest.index arr ct) ct) s
      = Done u s' ->
    same_region s s' /\ diag s' = diag s /\
    (forall a : Z, a < arr -> mem s' a = mem s a).
Proof.
  intros Ha Hall. induction Hall as [|i rest Hi Hrest IH]; intros s s' u.
  - cbn. unfold ret. intros [= _ <-]. repeat split.
  - cbn [Memtest.for_each]. unfold bind at 1.
    unfold Memtest.write_size_t at 1, store_header_size.
    destruct (in_heap s _ _); [|discriminate].
    unfold set_mem. intros Hrun.
    destruct (IH _ _ _ Hrun) as ((E1 & E2 & E3) & Hd & Hfr).
    cbn [free_addr start_addr end_addr mem diag] in *.
    repeat split; try assumption.
    intros a Hlt. rewrite Hfr by assumption.
    apply store64_outside. rewrite index_exact by assumption. lia.
Qed.

(** The second loop of TEST_4 prints nothing when the two words it
    compares are equal. *)
Lemma compare_loop_equal (arr_ arr v : Z) (s : state) (l : list Z) :
  Memtest.read_size_t arr_ s = Done v s ->
  Memtest.read_size_t arr s = Done v s ->
  Memtest.compare_loop arr_ arr l s = Done [] s.
Proof.
  intros H1 H2. induction l as [|i rest IH].
  - reflexivity.
  - cbn [Memtest.compare_loop]. unfold bind at 1. rewrite H1.
    unfold bind at 1. rewrite H2. unfold bind at 1. rewrite IH.
    unfold ret. rewrite Z.eqb_refl. reflexivity.
Qed.

Lemma padding_after_13 (arr : Z) : arr mod 16 = 0 -> padding (arr + 13) = 11.
Proof.
  intros H. rewrite padding_formula. unfold sizeof_header_s.
  Z.to_euclidean_division_equations. lia.
Qed.

(** X20.  TEST_4 of the client cannot fail, and hides an overflow.
    Whenever the block returns, on a region reserved in user space, it has
    printed its two marker lines and no FAILS line: the loop compares only
    the first word of the old and of the new block, which [realloc] has
    copied.  The client has written 13 words into its 13-byte block, and
    the allocator carves over them: the new block starts 32 bytes after the
    old one, and its header, holding 17, sits where the client's fourth
    word was.  Both blocks are live afterwards. *)
Theorem memtest_test_4_prints_no_failure
  (heap arr arr_ : Z) (out : list Memtest.output) (s s' : state) :
  reserved_low s ->
  Memtest.test_4 heap s = Done (arr, arr_, out) s' ->
  out = [Memtest.Text "TEST 4...."; Memtest.Text "TEST 4...."] /\
  arr_ = arr + 32 /\
  load64 (mem s') (Memtest.index arr 3) = 17 /\
  live_block s' arr 13 /\ live_block s' arr_ 17.
Proof.
  intros Hlow. pose proof Hlow as [Hok Hlim].
  pose proof (heap_ok_initialised s Hok) as Hi.
  assert (Hnw13 : no_wrap s 13).
  { apply modest_no_wrap; trivial; [|lia]. split; [lia | reflexivity]. }
  unfold Memtest.test_4. unfold bind at 1.
  destruct (malloc heap 13 s) as [a s1| |] eqn:Hm; try discriminate.
  pose proof (malloc_aligned _ _ _ _ _ Hm) as Hal.
  destruct (malloc_bounds heap 13 s s1 a Hi Hm) as [Hst1 Hen1].
  destruct (Z.eq_dec a NULL) as [->|Hne].
  { (* a null block: the first write faults *)
    unfold bind at 1. cbn [Memtest.upto map seq Memtest.for_each].
    unfold bind at 1.
    unfold Memtest.write_size_t at 1, store_header_size, in_heap.
    destruct Hok as (Hst & _).
    destruct (Z.leb_spec (start_addr s1) (Memtest.index NULL (Z.of_nat 0)))
      as [Hle|_]; [|discriminate].
    exfalso. revert Hle. rewrite Hst1. vm_compute (Memtest.index _ _). lia. }
  destruct (malloc_live_block heap 13 s s1 a Hok Hnw13) as
    (Hl1 & Hok1 & Hlo1 & Hf1); trivial.
  { unfold is_size_t. rewrite modulus_value. lia. }
  pose proof (live_block_bounds s1 a 13 Hok1 Hl1) as (Ha8 & _ & Ha63 & _).
  assert (Ha : 0 <= a < half_modulus) by (unfold sizeof_header_s in *; lia).
  unfold bind at 1.
  destruct (Memtest.for_each _ _ s1) as [u s2| |] eqn:Hfill; try discriminate.
  assert (Hidx : Forall (fun i => 0 <= i < 13) (Memtest.upto 13)).
  { unfold Memtest.upto. cbn [map seq]. repeat constructor; cbn; lia. }
  destruct (fill_effect a (Memtest.upto 13) Ha Hidx s1 s2 u Hfill)
    as ((Ef & Es & Ee) & Hd2 & Hfr2).
  assert (Hok2 : heap_ok s2).
  { unfold heap_ok, region_invariant in *. rewrite Ef, Es, Ee. exact Hok1. }
  assert (Hl2 : live_block s2 a 13).
  { destruct Hl1 as (Hn & Hlo & Hhi & Hhdr).
    unfold live_block. rewrite Ef, Es. repeat split; try assumption.
    rewrite <- Hhdr. apply load64_agree. intros x Hx. apply Hfr2.
    unfold sizeof_header_s in *. lia. }
  assert (Hlow2 : reserved_low s2).
  { split; [exact Hok2|]. rewrite Ee, Hen1. exact Hlim. }
  assert (Hnw17 : no_wrap s2 17).
  { apply modest_no_wrap; trivial; [|lia]. split; [lia | reflexivity]. }
  assert (Hfree2 : free_addr s2 = a + 13) by lia.
  pose proof (padding_after_13 a Hal) as Hpad.
  unfold bind at 1.
  destruct (realloc heap a 17 s2) as [q s3| |] eqn:Hr; try discriminate.
  destruct (Z.eq_dec q NULL) as [->|Hq].
  { (* a null result: the first read faults *)
    assert (E3 : s3 = s2).
    { destruct (Z_le_gt_dec
                  (free_addr s2 + padding (free_addr s2) + sizeof_header_s + 17)
                  (end_addr s2)) as [Hfit|Hover].
      - destruct (realloc_grow_succeeds heap a 17 13 s2 Hok2 Hl2)
          as (s'' & Hr' & Hnn); [lia | exact Hfit |].
        rewrite Hr' in Hr. injection Hr as Hr _. contradiction.
      - rewrite (realloc_grow_refused heap a 17 13 s2) in Hr
          by (trivial; lia).
        now injection Hr as <-. }
    subst s3. unfold bind at 1.
    cbn [Memtest.upto map seq Memtest.compare_loop].
    unfold bind at 1.
    unfold Memtest.read_size_t at 1, load_header_size, in_heap.
    destruct Hok2 as (Hst & _).
    destruct (Z.leb_spec (start_addr s2) NULL) as [Hle|_]; [|discriminate].
    unfold NULL in Hle. lia. }
  destruct (realloc_grow_outcome heap a 17 13 q s2 s3 Hok2 Hl2)
    as (Hqv & Hin & Hs3); trivial; [lia|].
  rewrite Hfree2, Hpad in Hqv, Hs3. unfold sizeof_header_s in Hqv.
  assert (Hq32 : q = a + 32) by lia.
  apply andb_prop in Hin. destruct Hin as [Hin1 Hin2].
  apply Z.leb_le in Hin1, Hin2.
  destruct Hok2 as (Hst2 & (Hlo2 & Hhi2) & Hend2).
  destruct Hl2 as (_ & Hlb2 & _ & Hhdr2).
  unfold sizeof_header_s in *.
  assert (Hnew : new_free_addr_at (a + 13) 17 = q + 17).
  { destruct Hnw17 as [_ Hw]. rewrite Hfree2, Hpad in Hw.
    rewrite new_free_addr_at_exact; rewrite ?Hpad;
      unfold sizeof_header_s in *; lia. }
  assert (Hword : load64 (mem s3) q = load64 (mem s3) a).
  { subst s3. cbn [mem]. apply load64_shift. intros k Hk.
    rewrite memcpy_bytes_inside by lia.
    rewrite (memcpy_bytes_outside _ q a 13 (a + k)) by lia.
    reflexivity. }
  assert (Hread_q : Memtest.read_size_t q s3 = Done (load64 (mem s3) a) s3).
  { unfold Memtest.read_size_t, load_header_size, in_heap.
    subst s3. cbn [start_addr end_addr].
    destruct (Z.leb_spec (start_addr s2) q); [|lia].
    destruct (Z.leb_spec (q + sizeof_header_s) (end_addr s2));
      [|unfold sizeof_header_s in *; lia].
    cbn [andb]. f_equal. exact Hword. }
  assert (Hread_a : Memtest.read_size_t a s3 = Done (load64 (mem s3) a) s3).
  { unfold Memtest.read_size_t, load_header_size, in_heap.
    subst s3. cbn [start_addr end_addr].
    destruct (Z.leb_spec (start_addr s2) a); [|lia].
    destruct (Z.leb_spec (a + sizeof_header_s) (end_addr s2));
      [|unfold sizeof_header_s in *; lia].
    reflexivity. }
  unfold bind at 1.
  rewrite (compare_loop_equal q a _ s3 _ Hread_q Hread_a).
  unfold ret. intros [= <- <- <- <-].
  split; [reflexivity|]. split; [exact Hq32|].
  rewrite index_exact by lia.
  subst s3. unfold live_block.
  cbn [free_addr start_addr end_addr mem]. rewrite Hnew.
  unfold sizeof_header_s.
  assert (Hhdr17 :
    load64 (memcpy_bytes (store64 (mem s2) (a + 13 + 11) 17) q a 13)
      (a + 13 + 11) = 17).
  { rewrite (load64_agree _ (store64 (mem s2) (a + 13 + 11) 17)).
    - apply load64_store64. unfold is_size_t. rewrite modulus_value. lia.
    - intros x Hx. apply memcpy_bytes_outside. lia. }
  split.
  { replace (a + 8 * 3) with (a + 13 + 11) by lia. exact Hhdr17. }
  split.
  - repeat split; try lia.
    rewrite <- Hhdr2. apply load64_agree. intros x Hx.
    rewrite memcpy_bytes_outside by lia.
    apply store64_outside. lia.
  - repeat split; try lia.
    replace (q - 8) with (a + 13 + 11) by lia. exact Hhdr17.
Qed.

Lemma reserved_low_with_xy : reserved_low with_xy.
Proof.
  split.
  - unfold heap_ok, region_invariant. vm_compute. repeat split; discriminate.
  - vm_compute. discriminate.
Qed.

Lemma memtest_test_4_prints_no_failure_witness :
  heap0 + 112 = heap0 + 80 + 32 /\
  load64 (mem (state_of (Memtest.test_4 heap0 with_xy) with_xy))
    (Memtest.index (heap0 + 80) 3) = 17.
Proof.
  destruct (memtest_test_4_prints_no_failure heap0 (heap0 + 80) (heap0 + 112)
              [Memtest.Text "TEST 4...."; Memtest.Text "TEST 4...."]
              with_xy (state_of (Memtest.test_4 heap0 with_xy) with_xy))
    as (_ & H1 & H2 & _).
  - exact reserved_low_with_xy.
  - reflexivity.
  - split; [exact H1 | exact H2].
Defined.

(* ====================================================================== *)
(** ** Further properties: the edge paths of [realloc] *)

(** X21.  The two guards of [realloc].  A null pointer makes the call a
    plain [malloc], so [realloc(NULL, 0)] reserves the region on first use
    and returns null.  A non-null pointer with size 0 is handed to [free]
    and the call returns null: the header is not read, so the call returns
    for every pointer and in every state, the unreserved one included; the
    cursor, the bounds and the memory are untouched, the region is not
    reserved, and a block that was live stays live. *)
Theorem realloc_guards (heap ptr size : Z) (s : state) :
  realloc heap NULL size s = malloc heap size s /\
  realloc heap NULL 0 s = bind (init heap) (fun _ => ret NULL) s /\
  (ptr <> NULL ->
   realloc heap ptr 0 s =
     Done NULL
       (with_diag (DebugVal "free(): " (to_intptr_t ptr) :: diag s) s) /\
   forall p n : Z,
     live_block s p n ->
     live_block
       (with_diag (DebugVal "free(): " (to_intptr_t ptr) :: diag s) s) p n).
Proof.
  split; [reflexivity|]. split.
  - change (realloc heap NULL 0 s) with (malloc heap 0 s).
    apply malloc_zero_is_init.
  - intros Hp. split.
    + unfold realloc. destruct (Z.eqb_spec ptr NULL); [contradiction|].
      reflexivity.
    + intros p n H. exact H.
Qed.

Lemma realloc_guards_witness :
  realloc heap0 y_block 0 boot =
    Done NULL (with_diag (DebugVal "free(): " (to_intptr_t y_block) :: diag boot)
                 boot).
Proof.
  apply (proj1 (proj2 (proj2 (realloc_guards heap0 y_block 0 boot))
                  ltac:(discriminate))).
Defined.

(* ====================================================================== *)
(** ** C5 after a request that wraps *)

(** C5, evaluated where the code departs from it.  The block [x] of 64
    bytes holds the bytes 1 .. 64.  A request of [SIZE_MAX - 23] bytes is
    then served, though it cannot fit, and leaves the cursor 56 bytes into
    the payload of [x]; the header of [x] still records 64.  [realloc(x,
    100)] carves its new block there: it returns a new address, but its
    header is written over bytes 56 .. 63 of [x] before the copy, so byte
    56 of the new block is 100, the low byte of the new header, and not
    the 57 the old payload held. *)
Theorem realloc_after_wrapped_request_loses_bytes :
  is_size_t (SIZE_MAX - 23) /\
  live_block with_x64 x64 64 /\
  mem with_x64 (x64 + 56) = 57 /\
  result_of (malloc heap0 (SIZE_MAX - 23) with_x64) = Some (heap0 + 96) /\
  free_addr after_wrapped = x64 + 56 /\
  load64 (mem after_wrapped) (x64 - sizeof_header_s) = 64 /\
  mem after_wrapped (x64 + 56) = 57 /\
  result_of (realloc heap0 x64 100 after_wrapped) = Some (heap0 + 80) /\
  heap0 + 80 <> NULL /\ heap0 + 80 <> x64 /\
  mem after_regrow (heap0 + 80 + 55) = mem after_wrapped (x64 + 55) /\
  mem after_regrow (heap0 + 80 + 56) = 100 /\
  mem after_regrow (heap0 + 80 + 56) <> mem after_wrapped (x64 + 56).
Proof.
  split; [vm_compute; split; congruence|].
  split; [unfold live_block; vm_compute; repeat split; discriminate|].
  repeat split; vm_compute; congruence.
Qed.
